(** * Magic actions of the awgo workflow library

    A shallow embedding of [magic.go] (package [aw]): the registry of
    magic actions ([MagicActions], [Register], [Unregister]), the built-in
    actions, and the argument interceptor [Args].

    Go strings are byte strings and are modelled by [string]; a Go map is
    a [gmap]; calls that leave the file (logger, feedback channel, log
    flush, filesystem helpers, updater) are recorded as calls of a small
    free monad and given meaning by an arbitrary handler. *)

From Stdlib Require Import ZArith.
From stdpp Require Import base option list strings gmap fin_maps.

Local Open Scope string_scope.
Local Open Scope list_scope.

(** ** Strings *)

Module GoStrings.

(** [strings.HasPrefix(s, prefix)]. *)
Definition HasPrefix (s prefix : string) : bool := String.prefix prefix s.

(** The slice expression [s[n:]] on a byte string, for [n <= len(s)]
    (Go panics beyond that; [Args] guards the slice with [HasPrefix]). *)
Fixpoint slice_from (n : nat) (s : string) : string :=
  match n, s with
  | O, _ => s
  | S n', String _ s' => slice_from n' s'
  | S _, EmptyString => EmptyString
  end.

(** [fmt.Sprintf("%s %s", a, b)] on two strings. *)
Definition Sprintf_s_s (a b : string) : string := a ++ " " ++ b.

(** The white space of [strings.TrimSpace] that lies in ASCII:
    tab, line feed, vertical tab, form feed, carriage return, space. *)
Definition asciiSpace (c : Ascii.ascii) : bool :=
  let n := Ascii.nat_of_ascii c in
  (Nat.leb 9 n && Nat.leb n 13) || Nat.eqb n 32.

Fixpoint trim_left (s : string) : string :=
  match s with
  | String c s' => if asciiSpace c then trim_left s' else s
  | EmptyString => EmptyString
  end.

Fixpoint trim_right (s : string) : string :=
  match s with
  | String c s' =>
      match trim_right s' with
      | EmptyString => if asciiSpace c then EmptyString else String c EmptyString
      | t => String c t
      end
  | EmptyString => EmptyString
  end.

(** [strings.TrimSpace] restricted to ASCII input.  The development is
    parametric in the trimming function; this instance serves the
    concrete examples, whose arguments are all ASCII. *)
Definition asciiTrimSpace (s : string) : string := trim_right (trim_left s).

End GoStrings.
Export GoStrings.

(** ** Icons ([icons.go]) *)

Definition IconType := string.
Definition IconTypeImageFile : IconType := "".
Definition IconTypeFileIcon : IconType := "fileicon".
Definition IconTypeFileType : IconType := "filetype".

Record Icon := mkIcon { Value : string; Type_ : IconType }.

Definition systemIcon (filename : string) : Icon :=
  {| Value := "/System/Library/CoreServices/CoreTypes.bundle/Contents/Resources/"
              ++ filename ++ ".icns";
     Type_ := IconTypeImageFile |}.

Definition IconInfo : Icon := systemIcon "ToolbarInfo".

(** The other ready-to-use icons.  In Go each variable is a pointer that
    [init] sets to a fresh [Icon]; a definition here is the value the
    variable points to once [init] has run. *)
Definition IconWorkflow : Icon := {| Value := "icon.png"; Type_ := "" |}.
Definition IconAccount : Icon := systemIcon "Accounts".
Definition IconBurn : Icon := systemIcon "BurningIcon".
Definition IconClock : Icon := systemIcon "Clock".
Definition IconColor : Icon := systemIcon "ProfileBackgroundColor".
Definition IconColour : Icon := systemIcon "ProfileBackgroundColor".
Definition IconEject : Icon := systemIcon "EjectMediaIcon".
Definition IconError : Icon := systemIcon "AlertStopIcon".
Definition IconFavorite : Icon := systemIcon "ToolbarFavoritesIcon".
Definition IconFavourite : Icon := systemIcon "ToolbarFavoritesIcon".
Definition IconGroup : Icon := systemIcon "GroupIcon".
Definition IconHelp : Icon := systemIcon "HelpIcon".
Definition IconHome : Icon := systemIcon "HomeFolderIcon".
Definition IconNetwork : Icon := systemIcon "GenericNetworkIcon".
Definition IconNote : Icon := systemIcon "AlertNoteIcon".
Definition IconSettings : Icon := systemIcon "ToolbarAdvanced".
Definition IconSwirl : Icon := systemIcon "ErasingIcon".
Definition IconSwitch : Icon := systemIcon "General".
Definition IconSync : Icon := systemIcon "Sync".
Definition IconTrash : Icon := systemIcon "TrashIcon".
Definition IconUser : Icon := systemIcon "UserIcon".
Definition IconWarning : Icon := systemIcon "AlertCautionIcon".
Definition IconWeb : Icon := systemIcon "BookmarkIcon".

#[export] Instance Icon_eq_dec : EqDecision Icon := ltac:(solve_decision).

(** The assignments of [init], in the order it makes them: the variable
    and the icon it receives. *)
Definition init : list (string * Icon) :=
  [ ("IconWorkflow", IconWorkflow); ("IconAccount", IconAccount);
    ("IconBurn", IconBurn); ("IconClock", IconClock);
    ("IconColor", IconColor); ("IconColour", IconColour);
    ("IconEject", IconEject); ("IconError", IconError);
    ("IconFavorite", IconFavorite); ("IconFavourite", IconFavourite);
    ("IconGroup", IconGroup); ("IconHelp", IconHelp);
    ("IconHome", IconHome); ("IconInfo", IconInfo);
    ("IconNetwork", IconNetwork); ("IconNote", IconNote);
    ("IconSettings", IconSettings); ("IconSwirl", IconSwirl);
    ("IconSwitch", IconSwitch); ("IconSync", IconSync);
    ("IconTrash", IconTrash); ("IconUser", IconUser);
    ("IconWarning", IconWarning); ("IconWeb", IconWeb) ].

(** ** Collaborators *)

(** Go's [error] values, observed through [Error()]. *)
Record error := mkError { Error : string }.

(** Modelled from the spec: the feedback item of the UI feedback channel
    (section 6, "create item(title), with chainable Icon, Subtitle,
    Valid(bool), UID, Autocomplete, Match attributes").  The struct is
    declared outside this file; an attribute that was never set is [None]. *)
Record Item := mkItem {
  title : string;
  subtitle : option string;
  valid : option bool;
  icon : option Icon;
  uid : option string;
  autocomplete : option string;
  matchstr : option string
}.

Definition NewItem (t : string) : Item :=
  mkItem t None None None None None None.
Definition Item_Subtitle (s : string) (it : Item) : Item :=
  mkItem (title it) (Some s) (valid it) (icon it) (uid it) (autocomplete it) (matchstr it).
Definition Item_Valid (b : bool) (it : Item) : Item :=
  mkItem (title it) (subtitle it) (Some b) (icon it) (uid it) (autocomplete it) (matchstr it).
Definition Item_Icon (i : Icon) (it : Item) : Item :=
  mkItem (title it) (subtitle it) (valid it) (Some i) (uid it) (autocomplete it) (matchstr it).
Definition Item_UID (s : string) (it : Item) : Item :=
  mkItem (title it) (subtitle it) (valid it) (icon it) (Some s) (autocomplete it) (matchstr it).
Definition Item_Autocomplete (s : string) (it : Item) : Item :=
  mkItem (title it) (subtitle it) (valid it) (icon it) (uid it) (Some s) (matchstr it).
Definition Item_Match (s : string) (it : Item) : Item :=
  mkItem (title it) (subtitle it) (valid it) (icon it) (uid it) (autocomplete it) (Some s).

(** Modelled from the spec: the [Updater] interface (section 6) is
    declared outside this file; an updater is an opaque handle and its
    three methods are collaborator calls. *)
Inductive Updater := UpdaterRef (id : nat).

(** Modelled from the spec: the collaborator operations of section 6.
    Each constructor is one call leaving [magic.go], with the arguments
    the caller passes; every call returns to its caller. *)
Inductive ExtCall : Type :=
| LogPrintf (format : string) (args : list string)   (* log.Printf *)
| LogPrintln (line : string)                         (* log.Println *)
| AddItem (it : Item)            (* NewItem(..) with its chained setters *)
| SendFeedback
| Filter (query : string)
| WarnEmpty (t s : string)
| finishLog (fatal : bool)
| OpenLog | OpenData | OpenCache | ClearCache | ClearData | Reset
| ExecOpen (url : string)        (* exec.Command("open", url).Run() *)
| CheckForUpdate (u : Updater)
| UpdateAvailable (u : Updater)
| Install (u : Updater).

(** What a call hands back: an [error] (nil is [None]), a [bool], or
    nothing the caller looks at. *)
Definition extRes (c : ExtCall) : Type :=
  match c with
  | OpenLog | OpenData | OpenCache | ClearCache | ClearData | Reset
  | ExecOpen _ | CheckForUpdate _ | Install _ => option error
  | UpdateAvailable _ => bool
  | _ => unit
  end.

(** ** Programs over collaborator calls *)

(** The body of a method that only talks to collaborators and then
    returns a value. *)
Inductive Calls (A : Type) : Type :=
| Ret (a : A)
| Call (c : ExtCall) (k : extRes c -> Calls A).
Arguments Ret {A} a.
Arguments Call {A} c k.

Fixpoint Calls_bind {A B} (f : A -> Calls B) (m : Calls A) : Calls B :=
  match m with
  | Ret a => f a
  | Call c k => Call c (fun r => Calls_bind f (k r))
  end.

#[export] Instance Calls_ret : MRet Calls := fun _ a => Ret a.
#[export] Instance Calls_mbind : MBind Calls := fun _ _ f m => Calls_bind f m.

Definition call (c : ExtCall) : Calls (extRes c) := Call c Ret.

(** ** Actions *)

(** The [MagicAction] interface.  The three texts are constant per
    action; [Run] is a call that returns nil or an error. *)
Record MagicAction := mkMagicAction {
  Keyword : string;
  Description : string;
  RunText : string;
  Run : Calls (option error)
}.

Definition openLogMagic : MagicAction :=
  {| Keyword := "log";
     Description := "Open workflow's log file";
     RunText := "Opening log file…";
     Run := call OpenLog |}.

Definition openDataMagic : MagicAction :=
  {| Keyword := "data";
     Description := "Open workflow's data directory";
     RunText := "Opening data directory…";
     Run := call OpenData |}.

Definition openCacheMagic : MagicAction :=
  {| Keyword := "cache";
     Description := "Open workflow's cache directory";
     RunText := "Opening cache directory…";
     Run := call OpenCache |}.

Definition clearCacheMagic : MagicAction :=
  {| Keyword := "delcache";
     Description := "Delete workflow's cached data";
     RunText := "Deleted workflow's cached data";
     Run := call ClearCache |}.

Definition clearDataMagic : MagicAction :=
  {| Keyword := "deldata";
     Description := "Delete workflow's saved data";
     RunText := "Deleted workflow's saved data";
     Run := call ClearData |}.

Definition resetMagic : MagicAction :=
  {| Keyword := "reset";
     Description := "Delete all saved and cached workflow data";
     RunText := "Deleted workflow saved and cached data";
     Run := call Reset |}.

Definition helpMagic (URL : string) : MagicAction :=
  {| Keyword := "help";
     Description := "Open workflow help URL in default browser";
     RunText := "Opening help in your browser…";
     Run := call (ExecOpen URL) |}.

Definition updateMagic_Run (updater : Updater) : Calls (option error) :=
  err ← call (CheckForUpdate updater);
  match err with
  | Some e => mret (Some e)
  | None =>
      avail ← call (UpdateAvailable updater);
      if (avail : bool) then call (Install updater)
      else call (LogPrintln "No update available");; mret None
  end.

Definition updateMagic (updater : Updater) : MagicAction :=
  {| Keyword := "update";
     Description := "Check for updates, and install if one is available";
     RunText := "Fetching update…";
     Run := updateMagic_Run updater |}.

(** The default prefix for magic arguments. *)
Definition DefaultMagicPrefix : string := "workflow:".

(** Magic actions registered by default. *)
Definition DefaultMagicActions : list MagicAction :=
  [ openLogMagic; openCacheMagic; clearCacheMagic;
    openDataMagic; clearDataMagic; resetMagic ].

(** ** The registry *)

(** [type MagicActions map[string]MagicAction]: an allocated map (Go
    refuses a write to a nil map, so a nil map is no registry).  A stored
    value is an action (a nil interface cannot be registered: [Register]
    would fail on its [Keyword()]); an absent key reads as [None], Go's
    nil. *)
Abbreviation MagicActions := (gmap string MagicAction).

(** [Register]: the map is updated in place in Go; here the updated map
    is returned. *)
Definition Register (ma : MagicActions) (actions : list MagicAction) : MagicActions :=
  foldl (fun m action => <[Keyword action := action]> m) ma actions.

Definition Unregister (ma : MagicActions) (actions : list MagicAction) : MagicActions :=
  foldl (fun m action => delete (Keyword action) m) ma actions.

(** ** The process *)

(** A program of the process itself: besides collaborator calls it may
    invoke the [Run] method of an action, and it may leave through
    [os.Exit], after which nothing follows. *)
Inductive Process (A : Type) : Type :=
| Return (a : A)
| OsExit (code : Z)
| Do (c : ExtCall) (k : extRes c -> Process A)
| Invoke (action : MagicAction) (k : option error -> Process A).
Arguments Return {A} a.
Arguments OsExit {A} code.
Arguments Do {A} c k.
Arguments Invoke {A} action k.

Fixpoint Process_bind {A B} (f : A -> Process B) (m : Process A) : Process B :=
  match m with
  | Return a => f a
  | OsExit code => OsExit code
  | Do c k => Do c (fun r => Process_bind f (k r))
  | Invoke a k => Invoke a (fun r => Process_bind f (k r))
  end.

#[export] Instance Process_ret : MRet Process := fun _ a => Return a.
#[export] Instance Process_mbind : MBind Process := fun _ _ f m => Process_bind f m.

Definition do (c : ExtCall) : Process (extRes c) := Do c Return.
Definition invoke (action : MagicAction) : Process (option error) := Invoke action Return.

(** A [for ... range] loop whose body runs for its effects. *)
Fixpoint for_each {X} (l : list X) (body : X -> Process unit) : Process unit :=
  match l with
  | [] => mret tt
  | x :: l' => body x;; for_each l' body
  end.

Section Interceptor.

(** [strings.TrimSpace], from Go's standard library. *)
Variable TrimSpace : string -> string.

(** The order in which [range] visits a map.  Go leaves it unspecified;
    it is some enumeration of the entries. *)
Variable rangeMap : MagicActions -> list (string * MagicAction).

(** The branch taken when [ma[query]] is an action. *)
Definition runAction (action : MagicAction) : Process (list string) :=
  do (LogPrintf (RunText action) []);;
  do (AddItem (Item_Valid false (Item_Icon IconInfo (NewItem (RunText action)))));;
  do SendFeedback;;
  err ← invoke action;
  match err with
  | Some e =>
      do (LogPrintf "Error running magic arg `%s`: %s" [Description action; Error e]);;
      do (finishLog true)
  | None => mret tt
  end;;
  do (finishLog false);;
  OsExit 0.

(** The branch taken when [ma[query]] is nil. *)
Definition listActions (ma : MagicActions) (prefix query : string)
  : Process (list string) :=
  for_each (rangeMap ma) (fun '(kw, action) =>
    do (AddItem
          (Item_Match (Sprintf_s_s (Keyword action) (Description action))
          (Item_Autocomplete (prefix ++ kw)
          (Item_UID (Description action)
          (Item_Icon IconInfo
          (Item_Valid false
          (Item_Subtitle (Description action)
          (NewItem (Keyword action))))))))));;
  do (Filter query);;
  do (WarnEmpty "No matching action" "Try another query?");;
  do SendFeedback;;
  OsExit 0.

(** The loop of [Args] over the arguments still to visit; [args] is the
    slice handed to [Args], returned when the loop runs out. *)
Fixpoint Args_range (ma : MagicActions) (args : list string) (prefix : string)
    (rest : list string) : Process (list string) :=
  match rest with
  | [] => mret args
  | arg :: rest' =>
      let arg := TrimSpace arg in
      if HasPrefix arg prefix then
        let query := slice_from (String.length prefix) arg in
        match ma !! query with
        | Some action => runAction action
        | None => listActions ma prefix query
        end
      else Args_range ma args prefix rest'
  end.

Definition Args (ma : MagicActions) (args : list string) (prefix : string)
  : Process (list string) :=
  Args_range ma args prefix args.

End Interceptor.

(** ** Running programs against the outside world *)

(** How a process ends. *)
Inductive Outcome (A : Type) : Type :=
| Returned (a : A)
| Exited (code : Z).
Arguments Returned {A} a.
Arguments Exited {A} code.

(** What an observer of the process sees: a collaborator call, or an
    invocation of an action's [Run] together with the calls its body
    made and the value it returned. *)
Inductive Event : Type :=
| ECall (c : ExtCall)
| ERun (action : MagicAction) (body : list ExtCall) (result : option error).

Section Semantics.

(** The outside world: a state and the answer to every call. *)
Context {World : Type}.
Variable handler : forall c : ExtCall, World -> extRes c * World.

Fixpoint run {A} (p : Calls A) (w : World) : A * list ExtCall * World :=
  match p with
  | Ret a => (a, [], w)
  | Call c k =>
      let '(r, w1) := handler c w in
      let '(a, tr, w2) := run (k r) w1 in
      (a, c :: tr, w2)
  end.

Fixpoint exec {A} (p : Process A) (w : World) : Outcome A * list Event * World :=
  match p with
  | Return a => (Returned a, [], w)
  | OsExit code => (Exited code, [], w)
  | Do c k =>
      let '(r, w1) := handler c w in
      let '(o, tr, w2) := exec (k r) w1 in
      (o, ECall c :: tr, w2)
  | Invoke action k =>
      let '(r, body, w1) := run (Run action) w in
      let '(o, tr, w2) := exec (k r) w1 in
      (o, ERun action body r :: tr, w2)
  end.

Definition outcome {A} (p : Process A) (w : World) : Outcome A := (exec p w).1.1.
Definition trace {A} (p : Process A) (w : World) : list Event := (exec p w).1.2.

End Semantics.

(** Observations on a trace. *)
Definition runs (tr : list Event) : list MagicAction :=
  omap (fun e => match e with ERun a _ _ => Some a | ECall _ => None end) tr.

Definition calls (tr : list Event) : list ExtCall :=
  omap (fun e => match e with ECall c => Some c | ERun _ _ _ => None end) tr.

Definition items (tr : list Event) : list Item :=
  omap (fun c => match c with AddItem it => Some it | _ => None end) (calls tr).

(** A world without state that answers every fallible call with [err]
    and [UpdateAvailable] with [avail]; used for concrete runs. *)
Definition answer (err : option error) (avail : bool) (c : ExtCall) : extRes c :=
  match c return extRes c with
  | OpenLog | OpenData | OpenCache | ClearCache | ClearData | Reset
  | ExecOpen _ | CheckForUpdate _ | Install _ => err
  | UpdateAvailable _ => avail
  | _ => tt
  end.

Definition reply (err : option error) (avail : bool)
  : forall c : ExtCall, unit -> extRes c * unit :=
  fun c w => (answer err avail c, w).

(** ** Sequences of registry operations *)

Inductive RegistryOp : Type :=
| OpRegister (actions : list MagicAction)
| OpUnregister (actions : list MagicAction).

Definition apply_op (ma : MagicActions) (op : RegistryOp) : MagicActions :=
  match op with
  | OpRegister actions => Register ma actions
  | OpUnregister actions => Unregister ma actions
  end.

Definition apply_ops (ma : MagicActions) (ops : list RegistryOp) : MagicActions :=
  foldl apply_op ma ops.

(** Every entry is stored under the keyword of its action. *)
Definition registry_inv (ma : MagicActions) : Prop :=
  map_Forall (fun k action => Keyword action = k) ma.

(** No two entries carry the same keyword. *)
Definition one_per_keyword (ma : MagicActions) : Prop :=
  forall k1 k2 a1 a2,
    ma !! k1 = Some a1 -> ma !! k2 = Some a2 ->
    Keyword a1 = Keyword a2 -> k1 = k2 /\ a1 = a2.

#[export] Instance registry_inv_dec (ma : MagicActions) : Decision (registry_inv ma) :=
  ltac:(unfold registry_inv; exact _).

(** ** Vocabulary of the statements *)

(** An argument that, once trimmed, does not carry the prefix. *)
Definition plain (TrimSpace : string -> string) (prefix arg : string) : Prop :=
  HasPrefix (TrimSpace arg) prefix = false.

(** Calls that delete the workflow's files. *)
Definition deletes (c : ExtCall) : bool :=
  match c with
  | ClearCache | ClearData | Reset => true
  | _ => false
  end.

(** Calls addressed to an updater, and the updater addressed. *)
Definition updaterOf (c : ExtCall) : option Updater :=
  match c with
  | CheckForUpdate u | UpdateAvailable u | Install u => Some u
  | _ => None
  end.

(** The calls to a collaborator. *)
Definition isSendFeedback (c : ExtCall) : bool :=
  match c with SendFeedback => true | _ => false end.

Definition finishLogFlag (c : ExtCall) : option bool :=
  match c with finishLog fatal => Some fatal | _ => None end.

(** The built-in actions of this file: the defaults, and the two that
    are registered on demand. *)
Definition builtins (URL : string) (updater : Updater) : list MagicAction :=
  DefaultMagicActions ++ [helpMagic URL; updateMagic updater].

(** The item announcing a running action, written out. *)
Definition runItem (action : MagicAction) : Item :=
  {| title := RunText action; subtitle := None; valid := Some false;
     icon := Some IconInfo; uid := None; autocomplete := None;
     matchstr := None |}.

(** The item listing the action stored under [kw], written out. *)
Definition catalogItem (prefix : string) (entry : string * MagicAction) : Item :=
  {| title := Keyword entry.2;
     subtitle := Some (Description entry.2);
     valid := Some false;
     icon := Some IconInfo;
     uid := Some (Description entry.2);
     autocomplete := Some (prefix +:+ entry.1);
     matchstr := Some (Keyword entry.2 +:+ " " +:+ Description entry.2) |}.

(** What is observed after [Run] has returned [r]. *)
Definition afterRun (action : MagicAction) (r : option error) : list Event :=
  match r with
  | Some e =>
      [ ECall (LogPrintf "Error running magic arg `%s`: %s"
                 [Description action; Error e]);
        ECall (finishLog true) ]
  | None => []
  end ++ [ ECall (finishLog false) ].

(** * Properties *)

(** Membership in a list that is written out. *)
Ltac listed :=
  rewrite ?elem_of_app, ?elem_of_cons, ?elem_of_nil; intuition discriminate.

Ltac listed_in H :=
  rewrite ?elem_of_app, ?elem_of_cons, ?elem_of_nil in H; intuition discriminate.

(** ** Strings *)

Lemma HasPrefix_app (p k : string) : HasPrefix (p +:+ k) p = true.
Proof.
  unfold HasPrefix. induction p as [|c p IH]; simpl.
  - by destruct k.
  - destruct (Ascii.ascii_dec c c); [exact IH | done].
Qed.

Lemma slice_from_app (p k : string) : slice_from (String.length p) (p +:+ k) = k.
Proof. induction p as [|c p IH]; simpl; [by destruct k | exact IH]. Qed.

(** ** The registry *)

Lemma Register_cons ma a actions :
  Register ma (a :: actions) = Register (<[Keyword a := a]> ma) actions.
Proof. reflexivity. Qed.

Lemma Register_snoc ma actions a :
  Register ma (actions ++ [a]) = <[Keyword a := a]> (Register ma actions).
Proof. unfold Register. by rewrite foldl_app. Qed.

Lemma Unregister_snoc ma actions a :
  Unregister ma (actions ++ [a]) = delete (Keyword a) (Unregister ma actions).
Proof. unfold Unregister. by rewrite foldl_app. Qed.

Lemma registry_inv_empty : registry_inv ∅.
Proof. apply map_Forall_empty. Qed.

Lemma registry_inv_Register ma actions :
  registry_inv ma -> registry_inv (Register ma actions).
Proof.
  induction actions as [|a actions IH] using rev_ind; [done|].
  intros Hma. rewrite Register_snoc.
  apply map_Forall_insert_2; [reflexivity | by apply IH].
Qed.

Lemma registry_inv_Unregister ma actions :
  registry_inv ma -> registry_inv (Unregister ma actions).
Proof.
  induction actions as [|a actions IH] using rev_ind; [done|].
  intros Hma. rewrite Unregister_snoc.
  apply map_Forall_delete. by apply IH.
Qed.

Lemma registry_inv_apply_ops ma ops :
  registry_inv ma -> registry_inv (apply_ops ma ops).
Proof.
  revert ma. induction ops as [|op ops IH]; intros ma Hma; [done|].
  apply IH. destruct op; simpl;
    auto using registry_inv_Register, registry_inv_Unregister.
Qed.

Lemma registry_inv_one_per_keyword ma : registry_inv ma -> one_per_keyword ma.
Proof.
  intros Hma k1 k2 a1 a2 H1 H2 Hkw.
  pose proof (Hma _ _ H1) as E1. pose proof (Hma _ _ H2) as E2. simpl in *.
  assert (k1 = k2) by congruence. subst k2. split; congruence.
Qed.

(** ** Execution *)

Section Execution.

Context {World : Type}.
Variable handler : forall c : ExtCall, World -> extRes c * World.

Lemma exec_bind {A B} (m : Process A) (f : A -> Process B) w :
  exec handler (m ≫= f) w =
    match exec handler m w with
    | (Returned a, tr, w1) =>
        let '(o, tr', w2) := exec handler (f a) w1 in (o, tr ++ tr', w2)
    | (Exited code, tr, w1) => (Exited code, tr, w1)
    end.
Proof.
  revert w. induction m as [a|code|c k IH|action k IH]; intros w; simpl.
  - by destruct (exec handler (f a) w) as [[o tr] w2].
  - reflexivity.
  - destruct (handler c w) as [r w1].
    change (Process_bind f (k r)) with (k r ≫= f). rewrite IH.
    destruct (exec handler (k r) w1) as [[[a|code] tr] w2]; [|done].
    by destruct (exec handler (f a) w2) as [[o tr'] w3].
  - destruct (run handler (Run action) w) as [[r body] w1].
    change (Process_bind f (k r)) with (k r ≫= f). rewrite IH.
    destruct (exec handler (k r) w1) as [[[a|code] tr] w2]; [|done].
    by destruct (exec handler (f a) w2) as [[o tr'] w3].
Qed.

Lemma exec_do (c : ExtCall) w :
  exec handler (do c) w = (Returned (handler c w).1, [ECall c], (handler c w).2).
Proof. simpl. by destruct (handler c w). Qed.

Lemma exec_for_each {X} (body : X -> Process unit) (g : X -> Item) (l : list X) :
  (forall x w, exists w', exec handler (body x) w = (Returned tt, [ECall (AddItem (g x))], w')) ->
  forall w, exists w',
    exec handler (for_each l body) w
    = (Returned tt, (fun x => ECall (AddItem (g x))) <$> l, w').
Proof.
  intros Hbody. induction l as [|x l IH]; intros w; simpl.
  - by exists w.
  - rewrite exec_bind. destruct (Hbody x w) as [w1 ->].
    destruct (IH w1) as [w2 ->]. by exists w2.
Qed.

Lemma exec_runAction (action : MagicAction) w :
  exists body r w',
    exec handler (runAction action) w
    = (Exited 0,
       [ ECall (LogPrintf (RunText action) []); ECall (AddItem (runItem action));
         ECall SendFeedback; ERun action body r ] ++ afterRun action r,
       w').
Proof.
  unfold runAction. simpl.
  destruct (handler (LogPrintf _ _) w) as [[] w1].
  destruct (handler (AddItem _) w1) as [[] w2].
  destruct (handler SendFeedback w2) as [[] w3].
  destruct (run handler (Run action) w3) as [[r body] w4].
  exists body, r. destruct r as [e|]; simpl.
  - destruct (handler (LogPrintf _ _) w4) as [[] w5].
    destruct (handler (finishLog true) w5) as [[] w6].
    destruct (handler (finishLog false) w6) as [[] w7].
    by exists w7.
  - destruct (handler (finishLog false) w4) as [[] w5].
    by exists w5.
Qed.

End Execution.

(** ** The interceptor *)

Section ArgsProperties.

Variable TrimSpace : string -> string.
Variable rangeMap : MagicActions -> list (string * MagicAction).
Context {World : Type}.
Variable handler : forall c : ExtCall, World -> extRes c * World.

Lemma exec_listActions ma prefix query w :
  exists w',
    exec handler (listActions rangeMap ma prefix query) w
    = (Exited 0,
       ((fun entry => ECall (AddItem (catalogItem prefix entry))) <$> rangeMap ma)
       ++ [ ECall (Filter query);
            ECall (WarnEmpty "No matching action" "Try another query?");
            ECall SendFeedback ],
       w').
Proof.
  unfold listActions. rewrite exec_bind.
  match goal with
  | |- context [for_each ?l ?body] =>
      destruct (exec_for_each handler body (catalogItem prefix) l) with (w := w)
        as [w1 ->]
  end.
  { intros [kw action] w0. simpl.
    destruct (handler (AddItem _) w0) as [[] w']. by exists w'. }
  simpl.
  destruct (handler (Filter query) w1) as [[] w2].
  destruct (handler (WarnEmpty _ _) w2) as [[] w3].
  destruct (handler SendFeedback w3) as [[] w4].
  exists w4. reflexivity.
Qed.

Lemma Args_range_plain ma args prefix pre rest :
  Forall (plain TrimSpace prefix) pre ->
  Args_range TrimSpace rangeMap ma args prefix (pre ++ rest)
  = Args_range TrimSpace rangeMap ma args prefix rest.
Proof.
  induction 1 as [|arg pre Harg _ IH]; [done|].
  simpl. unfold plain in Harg. by rewrite Harg.
Qed.

Lemma Args_first ma prefix pre arg post :
  Forall (plain TrimSpace prefix) pre ->
  HasPrefix (TrimSpace arg) prefix = true ->
  Args TrimSpace rangeMap ma (pre ++ arg :: post) prefix
  = match ma !! slice_from (String.length prefix) (TrimSpace arg) with
    | Some action => runAction action
    | None =>
        listActions rangeMap ma prefix
          (slice_from (String.length prefix) (TrimSpace arg))
    end.
Proof.
  intros Hpre Harg. unfold Args. rewrite Args_range_plain by done.
  simpl. by rewrite Harg.
Qed.

Lemma Args_none ma args prefix :
  Forall (plain TrimSpace prefix) args ->
  Args TrimSpace rangeMap ma args prefix = Return args.
Proof.
  intros Hargs. unfold Args.
  rewrite <- (app_nil_r args) at 2. by rewrite Args_range_plain.
Qed.

End ArgsProperties.

(** ** Observations on traces *)

Lemma calls_app tr1 tr2 : calls (tr1 ++ tr2) = calls tr1 ++ calls tr2.
Proof. apply omap_app. Qed.

Lemma runs_app tr1 tr2 : runs (tr1 ++ tr2) = runs tr1 ++ runs tr2.
Proof. apply omap_app. Qed.

Lemma calls_ECall {X} (g : X -> ExtCall) (l : list X) :
  calls ((fun x => ECall (g x)) <$> l) = g <$> l.
Proof. induction l as [|x l IH]; simpl; [done | by f_equal]. Qed.

Lemma runs_ECall {X} (g : X -> ExtCall) (l : list X) :
  runs ((fun x => ECall (g x)) <$> l) = [].
Proof. by induction l. Qed.

Lemma items_AddItem {X} (g : X -> Item) (l : list X) (rest : list ExtCall) :
  omap (fun c => match c with AddItem it => Some it | _ => None end)
       (((fun x => AddItem (g x)) <$> l) ++ rest)
  = (g <$> l)
    ++ omap (fun c => match c with AddItem it => Some it | _ => None end) rest.
Proof. induction l as [|x l IH]; simpl; [done | by f_equal]. Qed.

Lemma runs_afterRun action r : runs (afterRun action r) = [].
Proof. by destruct r. Qed.

Lemma ERun_not_afterRun a body r action r' : ERun a body r ∉ afterRun action r'.
Proof.
  unfold afterRun. destruct r'; simpl; listed.
Qed.

Lemma slice_from_HasPrefix (s p : string) :
  HasPrefix s p = true -> p +:+ slice_from (String.length p) s = s.
Proof.
  unfold HasPrefix. revert s. induction p as [|c p IH]; intros s; simpl.
  - by destruct s.
  - destruct s as [|c' s]; simpl; [by destruct p|].
    destruct (Ascii.ascii_dec c c') as [->|]; [|done].
    intros H. change (String c' (p +:+ slice_from (String.length p) s) = String c' s).
    f_equal. by apply IH.
Qed.

(** Whatever the arguments, [Args] either hands them back, runs one
    action, or lists the registry. *)
Lemma Args_range_cases TrimSpace rangeMap ma args prefix rest :
  Args_range TrimSpace rangeMap ma args prefix rest = Return args
  \/ (exists action,
        Args_range TrimSpace rangeMap ma args prefix rest = runAction action)
  \/ (exists query,
        Args_range TrimSpace rangeMap ma args prefix rest
        = listActions rangeMap ma prefix query).
Proof.
  induction rest as [|arg rest IH]; simpl; [by left|].
  destruct (HasPrefix (TrimSpace arg) prefix); [|exact IH].
  destruct (ma !! _) as [action|]; right; [left|right]; eauto.
Qed.

(** * The claims *)

(** C3.  When no argument, once trimmed, starts with the prefix, [Args]
    returns the argument vector it was given, makes no call to any
    collaborator (no log line, no item, no run) and leaves the world as
    it found it. *)
Theorem Args_passes_plain_arguments
    (TrimSpace : string -> string)
    (rangeMap : MagicActions -> list (string * MagicAction))
    {World : Type} (handler : forall c : ExtCall, World -> extRes c * World)
    (w : World) (ma : MagicActions) (args : list string) (prefix : string) :
  Forall (plain TrimSpace prefix) args ->
  exec handler (Args TrimSpace rangeMap ma args prefix) w = (Returned args, [], w).
Proof.
  intros Hargs. by rewrite (Args_none TrimSpace rangeMap ma args prefix Hargs).
Qed.

Lemma Args_passes_plain_arguments_witness :
  exec (reply None false)
       (Args asciiTrimSpace map_to_list (Register ∅ DefaultMagicActions)
             ["query"; " work flow:log "; "log"] "workflow:") tt
  = (Returned ["query"; " work flow:log "; "log"], [], tt).
Proof.
  apply (Args_passes_plain_arguments asciiTrimSpace map_to_list (reply None false)).
  repeat constructor.
Defined.

(** C1 (amended).  When the first argument whose trimmed form starts with
    the prefix is [prefix + k] and [k] is a registered keyword, [Args]
    invokes the [Run] of the action stored under [k] exactly once and of
    no other action, emits the single item announcing it, never calls
    [Filter] or [WarnEmpty], and exits with status 0. *)
Theorem Args_runs_first_prefixed_keyword
    (TrimSpace : string -> string)
    (rangeMap : MagicActions -> list (string * MagicAction))
    {World : Type} (handler : forall c : ExtCall, World -> extRes c * World)
    (w : World) (ma : MagicActions) (prefix k : string) (action : MagicAction)
    (pre post : list string) (arg : string) :
  Forall (plain TrimSpace prefix) pre ->
  TrimSpace arg = prefix +:+ k ->
  ma !! k = Some action ->
  let p := Args TrimSpace rangeMap ma (pre ++ arg :: post) prefix in
  runs (trace handler p w) = [action]
  /\ items (trace handler p w) = [runItem action]
  /\ (forall q, Filter q ∉ calls (trace handler p w))
  /\ (forall t s, WarnEmpty t s ∉ calls (trace handler p w))
  /\ outcome handler p w = Exited 0.
Proof.
  intros Hpre Harg Hk p. subst p.
  rewrite (Args_first TrimSpace rangeMap ma prefix pre arg post Hpre)
    by (rewrite Harg; apply HasPrefix_app).
  rewrite Harg, slice_from_app, Hk.
  destruct (exec_runAction handler action w) as (body & r & w' & E).
  unfold trace, outcome. rewrite E. simpl.
  destruct r as [e|]; simpl; repeat split; try done; intros; listed.
Qed.

Lemma Args_runs_first_prefixed_keyword_witness :
  let p := Args asciiTrimSpace map_to_list
             (Register ∅ [openLogMagic; openDataMagic])
             (["foo"] ++ " workflow:data" :: ["workflow:log"]) "workflow:" in
  runs (trace (reply None false) p tt) = [openDataMagic]
  /\ items (trace (reply None false) p tt) = [runItem openDataMagic]
  /\ (forall q, Filter q ∉ calls (trace (reply None false) p tt))
  /\ (forall t s, WarnEmpty t s ∉ calls (trace (reply None false) p tt))
  /\ outcome (reply None false) p tt = Exited 0.
Proof.
  apply (Args_runs_first_prefixed_keyword asciiTrimSpace map_to_list
           (reply None false) tt _ "workflow:" "data").
  - repeat constructor.
  - reflexivity.
  - vm_compute. reflexivity.
Defined.

(** C1 as stated fails: the vector holds [prefix + "log"] and [log] is
    registered, yet an earlier prefixed argument is the one acted on, the
    catalogue is listed and no [Run] is invoked. *)
Lemma Args_later_keyword_not_run :
  let ma := Register ∅ [openLogMagic; openDataMagic] in
  let args := ["workflow:xyz"; "workflow:log"] in
  let p := Args asciiTrimSpace map_to_list ma args "workflow:" in
  (exists arg, arg ∈ args /\ asciiTrimSpace arg = "workflow:" +:+ "log")
  /\ ma !! "log" = Some openLogMagic
  /\ runs (trace (reply None false) p tt) = []
  /\ Filter "xyz" ∈ calls (trace (reply None false) p tt).
Proof.
  repeat split.
  - exists "workflow:log". split; [|reflexivity].
    apply elem_of_cons; right. apply elem_of_cons; by left.
  - vm_compute. do 2 right. by left.
Qed.

(** C2 (amended).  When the first argument whose trimmed form starts with
    the prefix is [prefix + k] and [k] is not a registered keyword, [Args]
    emits one item per registry entry, in the order [range] visits them
    (title: the action's keyword; subtitle and uid: its description;
    autocomplete: the prefix followed by the key the action is stored
    under, which is its keyword in a registry that keeps the invariant;
    match string: keyword, a space, description), then calls [Filter k],
    [WarnEmpty] with the no-match texts and [SendFeedback], invokes no
    [Run], and exits with status 0. *)
Theorem Args_lists_on_unknown_keyword
    (TrimSpace : string -> string)
    (rangeMap : MagicActions -> list (string * MagicAction))
    {World : Type} (handler : forall c : ExtCall, World -> extRes c * World)
    (w : World) (ma : MagicActions) (prefix k : string)
    (pre post : list string) (arg : string) :
  rangeMap ma ≡ₚ map_to_list ma ->
  Forall (plain TrimSpace prefix) pre ->
  TrimSpace arg = prefix +:+ k ->
  ma !! k = None ->
  let p := Args TrimSpace rangeMap ma (pre ++ arg :: post) prefix in
  calls (trace handler p w)
    = ((fun entry => AddItem (catalogItem prefix entry)) <$> rangeMap ma)
      ++ [ Filter k; WarnEmpty "No matching action" "Try another query?";
           SendFeedback ]
  /\ items (trace handler p w) ≡ₚ catalogItem prefix <$> map_to_list ma
  /\ (registry_inv ma ->
      Forall (fun it => autocomplete it = Some (prefix +:+ title it))
             (items (trace handler p w)))
  /\ runs (trace handler p w) = []
  /\ outcome handler p w = Exited 0.
Proof.
  intros Hrange Hpre Harg Hk p. subst p.
  rewrite (Args_first TrimSpace rangeMap ma prefix pre arg post Hpre)
    by (rewrite Harg; apply HasPrefix_app).
  rewrite Harg, slice_from_app, Hk.
  destruct (exec_listActions rangeMap handler ma prefix k w) as [w' E].
  unfold trace, outcome, items. rewrite E. simpl.
  rewrite calls_app, runs_app, calls_ECall, runs_ECall. simpl.
  assert (Hitems :
    omap (fun c => match c with AddItem it => Some it | _ => None end)
      (((fun entry => AddItem (catalogItem prefix entry)) <$> rangeMap ma)
       ++ [ Filter k; WarnEmpty "No matching action" "Try another query?";
            SendFeedback ])
    = catalogItem prefix <$> rangeMap ma).
  { rewrite items_AddItem. simpl. apply app_nil_r. }
  rewrite Hitems. repeat split.
  - by rewrite Hrange.
  - intros Hinv. rewrite Hrange. apply Forall_fmap.
    apply map_Forall_to_list in Hinv.
    eapply Forall_impl; [exact Hinv|].
    intros [kw action] Hkw. simpl in *. by rewrite Hkw.
Qed.

Lemma Args_lists_on_unknown_keyword_witness :
  let ma := Register ∅ [openLogMagic; openDataMagic] in
  let p := Args asciiTrimSpace map_to_list ma
             (["foo"] ++ "workflow:xyz" :: ["workflow:log"]) "workflow:" in
  calls (trace (reply None false) p tt)
    = ((fun entry => AddItem (catalogItem "workflow:" entry)) <$> map_to_list ma)
      ++ [ Filter "xyz"; WarnEmpty "No matching action" "Try another query?";
           SendFeedback ]
  /\ items (trace (reply None false) p tt)
       ≡ₚ catalogItem "workflow:" <$> map_to_list ma
  /\ (registry_inv ma ->
      Forall (fun it => autocomplete it = Some ("workflow:" +:+ title it))
             (items (trace (reply None false) p tt)))
  /\ runs (trace (reply None false) p tt) = []
  /\ outcome (reply None false) p tt = Exited 0.
Proof.
  apply (Args_lists_on_unknown_keyword asciiTrimSpace map_to_list
           (reply None false) tt _ "workflow:" "xyz").
  - reflexivity.
  - repeat constructor.
  - reflexivity.
  - vm_compute. reflexivity.
Defined.

(** C2 as stated fails: the vector holds [prefix + "xyz"] and [xyz] is
    not registered, yet an earlier prefixed argument names a registered
    keyword, so its [Run] is invoked and nothing is listed or filtered. *)
Lemma Args_earlier_keyword_preempts_listing :
  let ma := Register ∅ [openLogMagic; openDataMagic] in
  let args := ["workflow:log"; "workflow:xyz"] in
  let p := Args asciiTrimSpace map_to_list ma args "workflow:" in
  (exists arg, arg ∈ args /\ arg = "workflow:" +:+ "xyz")
  /\ ma !! "xyz" = None
  /\ runs (trace (reply None false) p tt) = [openLogMagic]
  /\ items (trace (reply None false) p tt) = [runItem openLogMagic]
  /\ Filter "xyz" ∉ calls (trace (reply None false) p tt).
Proof.
  repeat split.
  - exists "workflow:xyz". split; [|reflexivity].
    apply elem_of_cons; right. apply elem_of_cons; by left.
  - intros H. apply list_elem_of_In in H. vm_compute in H. intuition discriminate.
Qed.

(** C4.  [Args] visits the arguments in order and trims each.  The first
    one whose trimmed form starts with the prefix decides everything: the
    program is the one [Args] builds for that argument alone, whatever
    stands before or after it; the query is the trimmed argument with the
    prefix removed; the action run is the one stored under exactly that
    string, and when there is none the catalogue is filtered by it.  In
    either case the process exits with status 0. *)
Theorem Args_acts_on_first_prefixed_only
    (TrimSpace : string -> string)
    (rangeMap : MagicActions -> list (string * MagicAction))
    {World : Type} (handler : forall c : ExtCall, World -> extRes c * World)
    (w : World) (ma : MagicActions) (prefix : string)
    (pre post : list string) (arg : string) :
  Forall (plain TrimSpace prefix) pre ->
  HasPrefix (TrimSpace arg) prefix = true ->
  let query := slice_from (String.length prefix) (TrimSpace arg) in
  let p := Args TrimSpace rangeMap ma (pre ++ arg :: post) prefix in
  prefix +:+ query = TrimSpace arg
  /\ p = Args TrimSpace rangeMap ma [arg] prefix
  /\ runs (trace handler p w) = option_list (ma !! query)
  /\ (ma !! query = None -> Filter query ∈ calls (trace handler p w))
  /\ outcome handler p w = Exited 0.
Proof.
  intros Hpre Harg query p. subst p.
  split; [by apply slice_from_HasPrefix|].
  rewrite (Args_first TrimSpace rangeMap ma prefix pre arg post Hpre Harg).
  split.
  { symmetry.
    exact (Args_first TrimSpace rangeMap ma prefix [] arg [] (Forall_nil_2 _) Harg). }
  fold query.
  destruct (ma !! query) as [action|] eqn:Hq.
  - destruct (exec_runAction handler action w) as (body & r & w' & E).
    unfold trace, outcome. rewrite E. simpl.
    rewrite runs_afterRun. done.
  - destruct (exec_listActions rangeMap handler ma prefix query w) as [w' E].
    unfold trace, outcome. rewrite E. simpl.
    rewrite calls_app, runs_app, runs_ECall. simpl. repeat split.
    intros _. apply elem_of_app; right. apply elem_of_cons; by left.
Qed.

Lemma Args_acts_on_first_prefixed_only_witness :
  let ma := Register ∅ [openLogMagic; openDataMagic] in
  let query := slice_from (String.length "workflow:") (asciiTrimSpace " workflow:data ") in
  let p := Args asciiTrimSpace map_to_list ma
             (["foo"] ++ " workflow:data " :: ["workflow:log"; "workflow:"])
             "workflow:" in
  "workflow:" +:+ query = asciiTrimSpace " workflow:data "
  /\ p = Args asciiTrimSpace map_to_list ma [" workflow:data "] "workflow:"
  /\ runs (trace (reply None false) p tt) = option_list (ma !! query)
  /\ (ma !! query = None -> Filter query ∈ calls (trace (reply None false) p tt))
  /\ outcome (reply None false) p tt = Exited 0.
Proof.
  apply (Args_acts_on_first_prefixed_only asciiTrimSpace map_to_list
           (reply None false) tt _ "workflow:").
  - repeat constructor.
  - reflexivity.
Defined.

(** The lookup is by exact string equality: a keyword in another case is
    no keyword. *)
Example Args_lookup_case_sensitive :
  runs (trace (reply None false)
          (Args asciiTrimSpace map_to_list (Register ∅ DefaultMagicActions)
                ["workflow:LOG"] "workflow:") tt) = []
  /\ runs (trace (reply None false)
          (Args asciiTrimSpace map_to_list (Register ∅ DefaultMagicActions)
                ["workflow:log"] "workflow:") tt) = [openLogMagic].
Proof. split; reflexivity. Qed.

(** C5.  Whenever [Args] invokes an action's [Run] and it returns an
    error, what follows is, in this order: a log line made of the
    action's description and the error's text, [finishLog(true)], and
    [finishLog(false)]; then the process exits with status 0. *)
Theorem Args_failed_run_flushes_twice_exits_zero
    (TrimSpace : string -> string)
    (rangeMap : MagicActions -> list (string * MagicAction))
    {World : Type} (handler : forall c : ExtCall, World -> extRes c * World)
    (w : World) (ma : MagicActions) (args : list string) (prefix : string)
    (action : MagicAction) (body : list ExtCall) (e : error) :
  ERun action body (Some e)
    ∈ trace handler (Args TrimSpace rangeMap ma args prefix) w ->
  trace handler (Args TrimSpace rangeMap ma args prefix) w
    = [ ECall (LogPrintf (RunText action) []);
        ECall (AddItem (runItem action));
        ECall SendFeedback;
        ERun action body (Some e);
        ECall (LogPrintf "Error running magic arg `%s`: %s"
                 [Description action; Error e]);
        ECall (finishLog true);
        ECall (finishLog false) ]
  /\ outcome handler (Args TrimSpace rangeMap ma args prefix) w = Exited 0.
Proof.
  unfold Args, trace, outcome.
  destruct (Args_range_cases TrimSpace rangeMap ma args prefix args)
    as [-> | [[a ->] | [query ->]]].
  - simpl. intros H. by apply elem_of_nil in H.
  - destruct (exec_runAction handler a w) as (body' & r & w' & ->). simpl.
    rewrite !elem_of_cons. intros [H | [H | [H | [H | H]]]]; try discriminate.
    + by simplify_eq.
    + by apply ERun_not_afterRun in H.
  - destruct (exec_listActions rangeMap handler ma prefix query w) as [w' ->].
    simpl. rewrite elem_of_app, list_elem_of_fmap, !elem_of_cons, elem_of_nil.
    intros [(entry & H & _) | H]; [discriminate | intuition discriminate].
Qed.

Lemma Args_failed_run_flushes_twice_exits_zero_witness :
  let p := Args asciiTrimSpace map_to_list (Register ∅ DefaultMagicActions)
             ["foo"; "workflow:delcache"] "workflow:" in
  let h := reply (Some (mkError "permission denied")) false in
  trace h p tt
    = [ ECall (LogPrintf (RunText clearCacheMagic) []);
        ECall (AddItem (runItem clearCacheMagic));
        ECall SendFeedback;
        ERun clearCacheMagic [ClearCache] (Some (mkError "permission denied"));
        ECall (LogPrintf "Error running magic arg `%s`: %s"
                 [Description clearCacheMagic; Error (mkError "permission denied")]);
        ECall (finishLog true);
        ECall (finishLog false) ]
  /\ outcome h p tt = Exited 0.
Proof.
  apply (Args_failed_run_flushes_twice_exits_zero asciiTrimSpace map_to_list
           (reply (Some (mkError "permission denied")) false) tt).
  apply list_elem_of_In. vm_compute. do 3 right. left. reflexivity.
Defined.

(** C6.  [Register(a)] stores [a] under [a.Keyword()] whatever the
    registry held there before and leaves every other key alone, so a
    lookup of that keyword afterwards yields [a]; there is no keyword,
    the empty one included, for which it does otherwise. *)
Theorem Register_last_write_wins (ma : MagicActions) (a : MagicAction) :
  Register ma [a] !! Keyword a = Some a
  /\ (forall k, k ≠ Keyword a -> Register ma [a] !! k = ma !! k)
  /\ (forall b, Keyword b = Keyword a ->
        Register (Register ma [b]) [a] = Register ma [a]).
Proof.
  unfold Register. simpl. split; [apply lookup_insert_eq|]. split.
  - intros k Hk. by apply lookup_insert_ne.
  - intros b ->. apply insert_insert_eq.
Qed.

Lemma Register_last_write_wins_witness :
  let ma := Register ∅ DefaultMagicActions in
  let a := mkMagicAction "" "Another action" "Running…" (Ret None) in
  let b := mkMagicAction "" "An action" "Running…" (call Reset) in
  Register ma [a] !! "" = Some a
  /\ Register ma [a] !! "log" = ma !! "log"
  /\ Register (Register ma [b]) [a] = Register ma [a].
Proof.
  intros ma a b.
  destruct (Register_last_write_wins ma a) as (H1 & H2 & H3).
  split; [exact H1|]. split; [apply H2; simpl; discriminate|].
  apply H3. reflexivity.
Defined.

(** C7.  [Unregister(a)] leaves the registry as it is when the keyword
    of [a] is not a key of it; in every case the entry under that keyword
    is gone afterwards and every other entry is kept. *)
Theorem Unregister_absent_noop_present_removed
    (ma : MagicActions) (a : MagicAction) :
  (ma !! Keyword a = None -> Unregister ma [a] = ma)
  /\ Unregister ma [a] !! Keyword a = None
  /\ (forall k, k ≠ Keyword a -> Unregister ma [a] !! k = ma !! k).
Proof.
  unfold Unregister. simpl. split; [apply delete_id|].
  split; [apply lookup_delete_eq|].
  intros k Hk. by apply lookup_delete_ne.
Qed.

Lemma Unregister_absent_noop_present_removed_witness :
  let ma := Register ∅ DefaultMagicActions in
  Unregister ma [helpMagic "https://example.org"] = ma
  /\ Unregister ma [resetMagic] !! "reset" = None
  /\ Unregister ma [resetMagic] !! "log" = ma !! "log".
Proof.
  intros ma.
  split; [|split].
  - apply (Unregister_absent_noop_present_removed ma (helpMagic "https://example.org")).
    vm_compute. reflexivity.
  - apply (Unregister_absent_noop_present_removed ma resetMagic).
  - apply (Unregister_absent_noop_present_removed ma resetMagic).
    simpl. discriminate.
Defined.

(** C8.  The default list holds exactly the six built-in actions open-log,
    open-cache, clear-cache, open-data, clear-data and reset; their
    keywords are [log], [cache], [delcache], [data], [deldata], [reset],
    no two alike; neither the help action nor the update action is among
    them. *)
Theorem DefaultMagicActions_six_builtins :
  DefaultMagicActions
    = [ openLogMagic; openCacheMagic; clearCacheMagic;
        openDataMagic; clearDataMagic; resetMagic ]
  /\ length DefaultMagicActions = 6
  /\ Keyword <$> DefaultMagicActions
     = ["log"; "cache"; "delcache"; "data"; "deldata"; "reset"]
  /\ NoDup (Keyword <$> DefaultMagicActions)
  /\ (forall url, Keyword (helpMagic url) ∉ Keyword <$> DefaultMagicActions)
  /\ (forall u, Keyword (updateMagic u) ∉ Keyword <$> DefaultMagicActions)
  /\ size (Register ∅ DefaultMagicActions) = 6.
Proof.
  repeat split.
  - apply (bool_decide_unpack _). vm_compute. exact I.
  - intros url H. apply list_elem_of_In in H. vm_compute in H. intuition discriminate.
  - intros u H. apply list_elem_of_In in H. vm_compute in H. intuition discriminate.
Qed.

(** C9.  The empty registry keeps the invariant (every entry is stored
    under the keyword of its action, hence no two entries share a
    keyword), and any sequence of [Register] and [Unregister] calls takes
    a registry that keeps it to one that keeps it. *)
Theorem registry_inv_preserved (ma : MagicActions) (ops : list RegistryOp) :
  (registry_inv ∅ /\ one_per_keyword ∅)
  /\ (registry_inv ma ->
      registry_inv (apply_ops ma ops) /\ one_per_keyword (apply_ops ma ops)).
Proof.
  split.
  - split; [apply registry_inv_empty|].
    apply registry_inv_one_per_keyword, registry_inv_empty.
  - intros Hma. split; [by apply registry_inv_apply_ops|].
    by apply registry_inv_one_per_keyword, registry_inv_apply_ops.
Qed.

Lemma registry_inv_preserved_witness :
  let ops := [ OpRegister DefaultMagicActions;
               OpRegister [helpMagic "https://example.org"; resetMagic];
               OpUnregister [openLogMagic; updateMagic (UpdaterRef 0)];
               OpRegister [updateMagic (UpdaterRef 1)] ] in
  registry_inv (apply_ops ∅ ops) /\ one_per_keyword (apply_ops ∅ ops).
Proof.
  intros ops.
  apply (proj2 (registry_inv_preserved ∅ ops)).
  apply (bool_decide_unpack _). vm_compute. exact I.
Defined.

(** C10.  [Run] of the update action: when [CheckForUpdate] fails, [Run]
    returns that error and calls neither [UpdateAvailable] nor [Install];
    when [CheckForUpdate] succeeds and [UpdateAvailable] answers false,
    [Run] returns nil and does not call [Install]; and [Install] is
    called only after [CheckForUpdate] succeeded and [UpdateAvailable]
    answered true. *)
Theorem updateMagic_Run_protocol
    {World : Type} (handler : forall c : ExtCall, World -> extRes c * World)
    (w : World) (updater : Updater) :
  let checked := handler (CheckForUpdate updater) w in
  let asked := handler (UpdateAvailable updater) checked.2 in
  let result := (run handler (Run (updateMagic updater)) w).1.1 in
  let made := (run handler (Run (updateMagic updater)) w).1.2 in
  (forall e, checked.1 = Some e ->
     result = Some e /\ made = [CheckForUpdate updater])
  /\ (checked.1 = None -> asked.1 = false ->
      result = None
      /\ made = [ CheckForUpdate updater; UpdateAvailable updater;
                  LogPrintln "No update available" ])
  /\ (forall u, Install u ∈ made -> checked.1 = None /\ asked.1 = true).
Proof.
  simpl.
  destruct (handler (CheckForUpdate updater) w) as [[e|] w1]; simpl.
  - repeat split; intros; simplify_eq; try done.
    all: match goal with H : _ ∈ _ |- _ => listed_in H end.
  - destruct (handler (UpdateAvailable updater) w1) as [[|] w2]; simpl.
    + destruct (handler (Install updater) w2) as [r w3]; simpl.
      repeat split; intros; simplify_eq; done.
    + destruct (handler (LogPrintln _) w2) as [[] w3]; simpl.
      repeat split; intros; simplify_eq; try done.
      all: match goal with H : _ ∈ _ |- _ => listed_in H end.
Qed.

Lemma updateMagic_Run_protocol_witness :
  let u := UpdaterRef 7 in
  let failing := reply (Some (mkError "no network")) true in
  let current := reply None false in
  ((run failing (Run (updateMagic u)) tt).1.1 = Some (mkError "no network")
   /\ (run failing (Run (updateMagic u)) tt).1.2 = [CheckForUpdate u])
  /\ ((run current (Run (updateMagic u)) tt).1.1 = None
      /\ (run current (Run (updateMagic u)) tt).1.2
         = [ CheckForUpdate u; UpdateAvailable u;
             LogPrintln "No update available" ]).
Proof.
  intros u failing current. split.
  - apply (proj1 (updateMagic_Run_protocol failing tt u)). reflexivity.
  - apply (proj1 (proj2 (updateMagic_Run_protocol current tt u))); reflexivity.
Defined.

(** * Further properties *)

#[local] Set Warnings "-clear-no-such-hyp".

(** ** The registry, with several actions at once *)

Lemma lookup_Register ma (actions : list MagicAction) k :
  Register ma actions !! k
  = match last (filter (fun a => Keyword a = k) actions) with
    | Some a => Some a
    | None => ma !! k
    end.
Proof.
  induction actions as [|a actions IH] using rev_ind; [done|].
  rewrite Register_snoc, filter_app.
  destruct (decide (Keyword a = k)) as [<-|Hne].
  - rewrite filter_cons_True, filter_nil, last_snoc by done.
    apply lookup_insert_eq.
  - rewrite filter_cons_False, filter_nil, app_nil_r by done.
    by rewrite lookup_insert_ne.
Qed.

Lemma lookup_Unregister ma (actions : list MagicAction) k :
  Unregister ma actions !! k
  = if decide (k ∈ Keyword <$> actions) then None else ma !! k.
Proof.
  induction actions as [|a actions IH] using rev_ind.
  - rewrite decide_False; [done | apply not_elem_of_nil].
  - rewrite Unregister_snoc, fmap_app. simpl.
    destruct (decide (Keyword a = k)) as [<-|Hne].
    + rewrite lookup_delete_eq. rewrite decide_True; [done|].
      apply elem_of_app; right. by apply list_elem_of_singleton.
    + rewrite lookup_delete_ne, IH by done.
      destruct (decide (k ∈ Keyword <$> actions)) as [Hin|Hnin].
      * rewrite decide_True; [done|]. apply elem_of_app; by left.
      * rewrite decide_False; [done|].
        rewrite elem_of_app, list_elem_of_singleton. naive_solver.
Qed.

Lemma lookup_Register_other ma actions k :
  k ∉ Keyword <$> actions -> Register ma actions !! k = ma !! k.
Proof.
  intros Hk. rewrite lookup_Register.
  destruct (last _) as [a|] eqn:Hlast; [|done].
  apply last_Some_elem_of, list_elem_of_filter in Hlast as [<- Ha].
  destruct Hk. by apply list_elem_of_fmap_2.
Qed.

Lemma Unregister_Register_eq ma (actions : list MagicAction) :
  Unregister (Register ma actions) actions = Unregister ma actions.
Proof.
  apply map_eq. intros k. rewrite !lookup_Unregister.
  destruct (decide _) as [|Hk]; [done|]. by apply lookup_Register_other.
Qed.

(** X1.  After [Register(actions...)] a key holds the last of the
    actions that carries it as keyword, and what the registry held
    before when none does. *)
Theorem Register_lookup (ma : MagicActions) (actions : list MagicAction) (k : string) :
  Register ma actions !! k
  = match last (filter (fun a => Keyword a = k) actions) with
    | Some a => Some a
    | None => ma !! k
    end.
Proof. apply lookup_Register. Qed.

(** X2.  After [Unregister(actions...)] the keyword of every one of the
    actions is absent and every other key holds what it held. *)
Theorem Unregister_lookup (ma : MagicActions) (actions : list MagicAction) (k : string) :
  Unregister ma actions !! k
  = if decide (k ∈ Keyword <$> actions) then None else ma !! k.
Proof. apply lookup_Unregister. Qed.

Lemma Register_distinct_all_found_aux ma (actions : list MagicAction) a :
  NoDup (Keyword <$> actions) ->
  a ∈ actions ->
  Register ma actions !! Keyword a = Some a.
Proof.
  induction actions as [|b actions IH] using rev_ind; intros Hnd Ha.
  - by apply elem_of_nil in Ha.
  - rewrite Register_snoc. rewrite fmap_app in Hnd.
    apply NoDup_app in Hnd as (Hnd & Hfresh & _).
    apply elem_of_app in Ha as [Ha | Ha].
    + rewrite lookup_insert_ne; [by apply IH|].
      intros Heq. apply (Hfresh (Keyword a)).
      * by apply list_elem_of_fmap_2.
      * rewrite <- Heq. simpl. by apply list_elem_of_singleton.
    + apply list_elem_of_singleton in Ha as ->. apply lookup_insert_eq.
Qed.

(** X3.  When the actions handed to one [Register] call have pairwise
    different keywords, each of them is found under its keyword
    afterwards. *)
Theorem Register_distinct_all_found
    (ma : MagicActions) (actions : list MagicAction) (a : MagicAction) :
  NoDup (Keyword <$> actions) ->
  a ∈ actions ->
  Register ma actions !! Keyword a = Some a.
Proof. apply Register_distinct_all_found_aux. Qed.

Lemma Register_distinct_all_found_witness :
  Register ∅ DefaultMagicActions !! Keyword clearDataMagic = Some clearDataMagic.
Proof.
  apply (Register_distinct_all_found ∅ DefaultMagicActions clearDataMagic).
  - apply (bool_decide_unpack _). vm_compute. exact I.
  - apply list_elem_of_In. vm_compute. do 4 right. left. reflexivity.
Defined.

(** X4.  Unregistering the actions just registered undoes the
    registration and removes what stood under their keywords before:
    the outcome is that of unregistering them from the registry as it
    was. *)
Theorem Unregister_Register (ma : MagicActions) (actions : list MagicAction) :
  Unregister (Register ma actions) actions = Unregister ma actions.
Proof. apply Unregister_Register_eq. Qed.

(** X5.  Registering actions whose keywords are all free and then
    unregistering them gives back the registry one started from. *)
Theorem Unregister_Register_fresh (ma : MagicActions) (actions : list MagicAction) :
  Forall (fun a => ma !! Keyword a = None) actions ->
  Unregister (Register ma actions) actions = ma.
Proof.
  intros Hfresh. rewrite Unregister_Register_eq.
  apply map_eq. intros k. rewrite lookup_Unregister.
  destruct (decide _) as [Hk|]; [|done].
  apply list_elem_of_fmap in Hk as (a & -> & Ha).
  symmetry. by apply (proj1 (Forall_forall _ _) Hfresh).
Qed.

Lemma Unregister_Register_fresh_witness :
  let extra := [helpMagic "https://example.org"; updateMagic (UpdaterRef 0)] in
  Unregister (Register (Register ∅ DefaultMagicActions) extra) extra
  = Register ∅ DefaultMagicActions.
Proof.
  intros extra.
  apply (Unregister_Register_fresh (Register ∅ DefaultMagicActions) extra).
  repeat constructor.
Defined.

(** X6.  Repeating a [Register] or an [Unregister] call with the same
    actions changes nothing further. *)
Theorem Register_Unregister_idempotent (ma : MagicActions) (actions : list MagicAction) :
  Register (Register ma actions) actions = Register ma actions
  /\ Unregister (Unregister ma actions) actions = Unregister ma actions.
Proof.
  split; apply map_eq; intros k.
  - rewrite (lookup_Register (Register ma actions)).
    destruct (last _) as [a|] eqn:Hlast; [|done].
    by rewrite lookup_Register, Hlast.
  - rewrite (lookup_Unregister (Unregister ma actions)).
    destruct (decide _) as [Hk|]; [|done].
    by rewrite lookup_Unregister, decide_True.
Qed.

(** X7.  The keys after [Register] are the keys before together with the
    keywords of the actions; after [Unregister] they are the keys before
    without those keywords.  The entries grow by no more than the number
    of actions registered, and never grow by unregistering. *)
Theorem Register_Unregister_keys (ma : MagicActions) (actions : list MagicAction) :
  dom (Register ma actions) = dom ma ∪ list_to_set (Keyword <$> actions)
  /\ dom (Unregister ma actions) = dom ma ∖ list_to_set (Keyword <$> actions)
  /\ size (Register ma actions) <= size ma + length actions
  /\ size (Unregister ma actions) <= size ma.
Proof.
  repeat split.
  - induction actions as [|a actions IH] using rev_ind; [set_solver|].
    rewrite Register_snoc, dom_insert_L, IH, fmap_app, list_to_set_app_L.
    set_solver.
  - induction actions as [|a actions IH] using rev_ind; [set_solver|].
    rewrite Unregister_snoc, dom_delete_L, IH, fmap_app, list_to_set_app_L.
    set_solver.
  - induction actions as [|a actions IH] using rev_ind; [simpl; lia|].
    rewrite Register_snoc, length_app. simpl.
    pose proof (map_size_insert (Keyword a) a (Register ma actions)) as Hsz.
    destruct (Register ma actions !! Keyword a); simpl in Hsz; unfold id in Hsz; lia.
  - induction actions as [|a actions IH] using rev_ind; [done|].
    rewrite Unregister_snoc.
    pose proof (map_size_delete (Keyword a) (Unregister ma actions)) as Hsz.
    destruct (Unregister ma actions !! Keyword a); simpl in Hsz; unfold id in Hsz; lia.
Qed.

(** ** The interceptor, on every input *)

(** Either no argument carries the prefix, or there is a first one. *)
Lemma first_prefixed TrimSpace prefix (args : list string) :
  Forall (plain TrimSpace prefix) args
  \/ exists pre arg post,
       args = pre ++ arg :: post
       /\ Forall (plain TrimSpace prefix) pre
       /\ HasPrefix (TrimSpace arg) prefix = true.
Proof.
  induction args as [|arg args IH]; [by left|].
  destruct (HasPrefix (TrimSpace arg) prefix) eqn:Harg.
  - right. exists [], arg, args. by repeat split.
  - destruct IH as [Hall | (pre & arg' & post & -> & Hpre & Harg')].
    + left. by constructor.
    + right. exists (arg :: pre), arg', post. repeat split; [|done].
      by constructor.
Qed.

(** The three ways [Args] can go, with all that is observed in each. *)
Lemma exec_Args TrimSpace rangeMap {World}
    (handler : forall c : ExtCall, World -> extRes c * World)
    (w : World) ma args prefix :
  (Forall (plain TrimSpace prefix) args
   /\ exec handler (Args TrimSpace rangeMap ma args prefix) w = (Returned args, [], w))
  \/ (exists query action body r w',
        ma !! query = Some action
        /\ exec handler (Args TrimSpace rangeMap ma args prefix) w
           = (Exited 0,
              [ ECall (LogPrintf (RunText action) []);
                ECall (AddItem (runItem action));
                ECall SendFeedback; ERun action body r ] ++ afterRun action r,
              w'))
  \/ (exists query w',
        ma !! query = None
        /\ exec handler (Args TrimSpace rangeMap ma args prefix) w
           = (Exited 0,
              ((fun entry => ECall (AddItem (catalogItem prefix entry)))
                 <$> rangeMap ma)
              ++ [ ECall (Filter query);
                   ECall (WarnEmpty "No matching action" "Try another query?");
                   ECall SendFeedback ],
              w')).
Proof.
  destruct (first_prefixed TrimSpace prefix args)
    as [Hall | (pre & arg & post & -> & Hpre & Harg)].
  - left. split; [done|]. by rewrite (Args_none TrimSpace rangeMap ma args prefix Hall).
  - right.
    rewrite (Args_first TrimSpace rangeMap ma prefix pre arg post Hpre Harg).
    destruct (ma !! slice_from _ _) as [action|] eqn:Hq.
    + left. destruct (exec_runAction handler action w) as (body & r & w' & E).
      by exists (slice_from (String.length prefix) (TrimSpace arg)), action, body, r, w'.
    + right.
      destruct (exec_listActions rangeMap handler ma prefix
                  (slice_from (String.length prefix) (TrimSpace arg)) w) as [w' E].
      by exists (slice_from (String.length prefix) (TrimSpace arg)), w'.
Qed.

Lemma items_catalog {X} (g : X -> Item) (l : list X) (rest : list Event) :
  items (((fun x => ECall (AddItem (g x))) <$> l) ++ rest) = (g <$> l) ++ items rest.
Proof. induction l as [|x l IH]; simpl; [done|]. unfold items in *. simpl. by f_equal. Qed.

Lemma calls_afterRun action r :
  calls (afterRun action r)
  = match r with
    | Some e => [ LogPrintf "Error running magic arg `%s`: %s"
                    [Description action; Error e];
                  finishLog true; finishLog false ]
    | None => [ finishLog false ]
    end.
Proof. by destruct r. Qed.

(** X8.  [Args] comes back exactly when no argument carries the prefix,
    and then with the arguments it was given and nothing done; in every
    other case it ends the process, and the status is 0. *)
Theorem Args_returns_iff_plain
    (TrimSpace : string -> string)
    (rangeMap : MagicActions -> list (string * MagicAction))
    {World : Type} (handler : forall c : ExtCall, World -> extRes c * World)
    (w : World) (ma : MagicActions) (args : list string) (prefix : string) :
  (Forall (plain TrimSpace prefix) args
   /\ exec handler (Args TrimSpace rangeMap ma args prefix) w = (Returned args, [], w))
  \/ (Exists (fun arg => HasPrefix (TrimSpace arg) prefix = true) args
      /\ outcome handler (Args TrimSpace rangeMap ma args prefix) w = Exited 0).
Proof.
  destruct (first_prefixed TrimSpace prefix args)
    as [Hall | (pre & arg & post & Hargs & Hpre & Harg)].
  - left. split; [done|]. by rewrite (Args_none TrimSpace rangeMap ma args prefix Hall).
  - right. split.
    { rewrite Hargs. apply Exists_app; right. by constructor. }
    destruct (exec_Args TrimSpace rangeMap handler w ma args prefix)
      as [[Hall _] | [(q & a & body & r & w' & _ & E) | (q & w' & _ & E)]].
    + subst args. apply Forall_app in Hall as [_ Hall].
      apply Forall_cons in Hall as [Hplain _]. unfold plain in Hplain. congruence.
    + unfold outcome. by rewrite E.
    + unfold outcome. by rewrite E.
Qed.

(** X9.  Whatever the input, [Args] invokes the [Run] of at most one
    action, and only of an action that the registry holds. *)
Theorem Args_at_most_one_run
    (TrimSpace : string -> string)
    (rangeMap : MagicActions -> list (string * MagicAction))
    {World : Type} (handler : forall c : ExtCall, World -> extRes c * World)
    (w : World) (ma : MagicActions) (args : list string) (prefix : string) :
  length (runs (trace handler (Args TrimSpace rangeMap ma args prefix) w)) <= 1
  /\ (forall action,
        action ∈ runs (trace handler (Args TrimSpace rangeMap ma args prefix) w) ->
        exists k, ma !! k = Some action).
Proof.
  unfold trace.
  destruct (exec_Args TrimSpace rangeMap handler w ma args prefix)
    as [[_ E] | [(q & a & body & r & w' & Hq & E) | (q & w' & _ & E)]];
    rewrite E; simpl.
  - split; [lia|]. intros a H. by apply elem_of_nil in H.
  - rewrite runs_afterRun. simpl. split; [lia|].
    intros a' H. apply list_elem_of_singleton in H as ->. by exists q.
  - rewrite runs_app, runs_ECall. simpl. split; [lia|].
    intros a H. by apply elem_of_nil in H.
Qed.

(** X10.  Every item [Args] hands to the feedback channel, on whatever
    input, is marked not valid and carries the info icon. *)
Theorem Args_items_not_actionable
    (TrimSpace : string -> string)
    (rangeMap : MagicActions -> list (string * MagicAction))
    {World : Type} (handler : forall c : ExtCall, World -> extRes c * World)
    (w : World) (ma : MagicActions) (args : list string) (prefix : string) :
  Forall (fun it => valid it = Some false /\ icon it = Some IconInfo)
         (items (trace handler (Args TrimSpace rangeMap ma args prefix) w)).
Proof.
  unfold trace.
  destruct (exec_Args TrimSpace rangeMap handler w ma args prefix)
    as [[_ E] | [(q & a & body & r & w' & Hq & E) | (q & w' & _ & E)]];
    rewrite E; simpl.
  - constructor.
  - unfold items. simpl. rewrite calls_afterRun.
    destruct r; simpl; by repeat constructor.
  - rewrite items_catalog. simpl. rewrite app_nil_r.
    apply Forall_fmap, Forall_forall. by intros [kw a] _.
Qed.

Lemma exec_Args_keyword TrimSpace rangeMap {World}
    (handler : forall c : ExtCall, World -> extRes c * World)
    (w : World) ma prefix k action pre arg post :
  Forall (plain TrimSpace prefix) pre ->
  TrimSpace arg = prefix +:+ k ->
  ma !! k = Some action ->
  exists body r w',
    exec handler (Args TrimSpace rangeMap ma (pre ++ arg :: post) prefix) w
    = (Exited 0,
       [ ECall (LogPrintf (RunText action) []); ECall (AddItem (runItem action));
         ECall SendFeedback; ERun action body r ] ++ afterRun action r,
       w').
Proof.
  intros Hpre Harg Hk.
  rewrite (Args_first TrimSpace rangeMap ma prefix pre arg post Hpre)
    by (rewrite Harg; apply HasPrefix_app).
  rewrite Harg, slice_from_app, Hk. apply exec_runAction.
Qed.

Lemma exec_Args_unknown TrimSpace rangeMap {World}
    (handler : forall c : ExtCall, World -> extRes c * World)
    (w : World) ma prefix k pre arg post :
  Forall (plain TrimSpace prefix) pre ->
  TrimSpace arg = prefix +:+ k ->
  ma !! k = None ->
  exists w',
    exec handler (Args TrimSpace rangeMap ma (pre ++ arg :: post) prefix) w
    = (Exited 0,
       ((fun entry => ECall (AddItem (catalogItem prefix entry))) <$> rangeMap ma)
       ++ [ ECall (Filter k);
            ECall (WarnEmpty "No matching action" "Try another query?");
            ECall SendFeedback ],
       w').
Proof.
  intros Hpre Harg Hk.
  rewrite (Args_first TrimSpace rangeMap ma prefix pre arg post Hpre)
    by (rewrite Harg; apply HasPrefix_app).
  rewrite Harg, slice_from_app, Hk. apply exec_listActions.
Qed.

Lemma filter_SendFeedback_catalog {X} (g : X -> Item) (l : list X) (rest : list ExtCall) :
  filter (fun c => isSendFeedback c) (((fun x => AddItem (g x)) <$> l) ++ rest)
  = filter (fun c => isSendFeedback c) rest.
Proof.
  induction l as [|x l IH]; [done|]. simpl.
  rewrite filter_cons_False; [exact IH | simpl; tauto].
Qed.

(** X11.  [SendFeedback] is called exactly once on every path that ends
    the process, and not at all when [Args] comes back. *)
Theorem Args_sends_feedback_once
    (TrimSpace : string -> string)
    (rangeMap : MagicActions -> list (string * MagicAction))
    {World : Type} (handler : forall c : ExtCall, World -> extRes c * World)
    (w : World) (ma : MagicActions) (args : list string) (prefix : string) :
  length (filter (fun c => isSendFeedback c)
            (calls (trace handler (Args TrimSpace rangeMap ma args prefix) w)))
  = match outcome handler (Args TrimSpace rangeMap ma args prefix) w with
    | Exited _ => 1
    | Returned _ => 0
    end.
Proof.
  unfold trace, outcome.
  destruct (exec_Args TrimSpace rangeMap handler w ma args prefix)
    as [[_ E] | [(q & a & body & r & w' & Hq & E) | (q & w' & _ & E)]];
    rewrite E; simpl; [done| |].
  - rewrite calls_afterRun. by destruct r.
  - rewrite calls_app, calls_ECall. simpl.
    by rewrite (filter_SendFeedback_catalog (catalogItem prefix)).
Qed.

(** X12.  When the [Run] that [Args] invokes returns nil, all that is
    observed is: the run text logged, the announcing item, the feedback
    sent, the run, and [finishLog(false)]; no error line is logged and
    [finishLog(true)] is not called.  The process exits with status 0. *)
Theorem Args_successful_run_trace
    (TrimSpace : string -> string)
    (rangeMap : MagicActions -> list (string * MagicAction))
    {World : Type} (handler : forall c : ExtCall, World -> extRes c * World)
    (w : World) (ma : MagicActions) (args : list string) (prefix : string)
    (action : MagicAction) (body : list ExtCall) :
  ERun action body None
    ∈ trace handler (Args TrimSpace rangeMap ma args prefix) w ->
  trace handler (Args TrimSpace rangeMap ma args prefix) w
    = [ ECall (LogPrintf (RunText action) []);
        ECall (AddItem (runItem action));
        ECall SendFeedback;
        ERun action body None;
        ECall (finishLog false) ]
  /\ outcome handler (Args TrimSpace rangeMap ma args prefix) w = Exited 0.
Proof.
  unfold trace, outcome.
  destruct (exec_Args TrimSpace rangeMap handler w ma args prefix)
    as [[_ E] | [(q & a & body' & r & w' & Hq & E) | (q & w' & _ & E)]];
    rewrite E; simpl.
  - intros H. by apply elem_of_nil in H.
  - rewrite !elem_of_cons. intros [H | [H | [H | [H | H]]]]; try discriminate.
    + by simplify_eq.
    + by apply ERun_not_afterRun in H.
  - rewrite elem_of_app, list_elem_of_fmap, !elem_of_cons, elem_of_nil.
    intros [(entry & H & _) | H]; [discriminate | intuition discriminate].
Qed.

Lemma Args_successful_run_trace_witness :
  let p := Args asciiTrimSpace map_to_list (Register ∅ DefaultMagicActions)
             ["  workflow:cache"] DefaultMagicPrefix in
  trace (reply None false) p tt
    = [ ECall (LogPrintf (RunText openCacheMagic) []);
        ECall (AddItem (runItem openCacheMagic));
        ECall SendFeedback;
        ERun openCacheMagic [OpenCache] None;
        ECall (finishLog false) ]
  /\ outcome (reply None false) p tt = Exited 0.
Proof.
  apply (Args_successful_run_trace asciiTrimSpace map_to_list (reply None false) tt).
  apply list_elem_of_In. vm_compute. do 3 right. left. reflexivity.
Defined.

Lemma finishLogFlag_catalog {X} (g : X -> Item) (l : list X) (rest : list ExtCall) :
  omap finishLogFlag (((fun x => AddItem (g x)) <$> l) ++ rest)
  = omap finishLogFlag rest.
Proof. induction l as [|x l IH]; [done | exact IH]. Qed.

(** X13.  [finishLog] is called only around a run: not at all when
    [Args] comes back or lists the registry, once with [false] after a
    [Run] that returned nil, and with [true] and then [false] after a
    [Run] that returned an error. *)
Theorem Args_finishLog_calls
    (TrimSpace : string -> string)
    (rangeMap : MagicActions -> list (string * MagicAction))
    {World : Type} (handler : forall c : ExtCall, World -> extRes c * World)
    (w : World) (ma : MagicActions) (args : list string) (prefix : string) :
  let tr := trace handler (Args TrimSpace rangeMap ma args prefix) w in
  (runs tr = [] /\ omap finishLogFlag (calls tr) = [])
  \/ (exists action body, ERun action body None ∈ tr
        /\ omap finishLogFlag (calls tr) = [false])
  \/ (exists action body e, ERun action body (Some e) ∈ tr
        /\ omap finishLogFlag (calls tr) = [true; false]).
Proof.
  unfold trace.
  destruct (exec_Args TrimSpace rangeMap handler w ma args prefix)
    as [[_ E] | [(q & a & body & r & w' & Hq & E) | (q & w' & _ & E)]];
    rewrite E; simpl.
  - by left.
  - right. rewrite calls_afterRun. destruct r as [e|]; [right | left].
    + exists a, body, e. split; [|done]. do 3 right. left.
    + exists a, body. split; [|done]. do 3 right. left.
  - left. rewrite calls_app, runs_app, calls_ECall, runs_ECall. simpl.
    split; [done|]. by rewrite (finishLogFlag_catalog (catalogItem prefix)).
Qed.

(** X14.  With the empty prefix every argument counts as prefixed: a
    vector that is not empty never comes back; the whole trimmed first
    argument is the query, whatever follows it. *)
Theorem Args_empty_prefix
    (TrimSpace : string -> string)
    (rangeMap : MagicActions -> list (string * MagicAction))
    {World : Type} (handler : forall c : ExtCall, World -> extRes c * World)
    (w : World) (ma : MagicActions) (arg : string) (rest : list string) :
  let p := Args TrimSpace rangeMap ma (arg :: rest) "" in
  outcome handler p w = Exited 0
  /\ runs (trace handler p w) = option_list (ma !! TrimSpace arg)
  /\ match ma !! TrimSpace arg with
     | Some _ => True
     | None => Filter (TrimSpace arg) ∈ calls (trace handler p w)
     end.
Proof.
  assert (Hp : HasPrefix (TrimSpace arg) "" = true)
    by (unfold HasPrefix; by destruct (TrimSpace arg)).
  intros p. subst p.
  pose proof (Args_first TrimSpace rangeMap ma "" [] arg rest (Forall_nil_2 _) Hp)
    as E.
  simpl in E. rewrite E. unfold trace, outcome.
  destruct (ma !! TrimSpace arg) as [action|] eqn:Hq.
  - destruct (exec_runAction handler action w) as (body & r & w' & ->). simpl.
    by rewrite runs_afterRun.
  - destruct (exec_listActions rangeMap handler ma "" (TrimSpace arg) w) as [w' ->].
    simpl. rewrite calls_app, runs_app, runs_ECall. simpl. repeat split.
    apply elem_of_app; right. apply elem_of_cons; by left.
Qed.

Lemma append_inj_l (p a b : string) : p +:+ a = p +:+ b -> a = b.
Proof.
  induction p as [|c p IH]; [done|].
  intros H. apply IH.
  change (String c (p +:+ a) = String c (p +:+ b)) in H. congruence.
Qed.

(** X15.  The autocomplete strings of the items [Args] emits never
    repeat, whatever the registry holds; in a registry that keeps the
    invariant the titles never repeat either. *)
Theorem Args_items_distinct
    (TrimSpace : string -> string)
    (rangeMap : MagicActions -> list (string * MagicAction))
    {World : Type} (handler : forall c : ExtCall, World -> extRes c * World)
    (w : World) (ma : MagicActions) (args : list string) (prefix : string) :
  rangeMap ma ≡ₚ map_to_list ma ->
  NoDup (autocomplete <$> items (trace handler (Args TrimSpace rangeMap ma args prefix) w))
  /\ (registry_inv ma ->
      NoDup (title <$> items (trace handler (Args TrimSpace rangeMap ma args prefix) w))).
Proof.
  intros Hrange. unfold trace.
  destruct (exec_Args TrimSpace rangeMap handler w ma args prefix)
    as [[_ E] | [(q & a & body & r & w' & Hq & E) | (q & w' & _ & E)]];
    rewrite E; simpl.
  - split; [|intros _]; constructor.
  - unfold items. simpl. rewrite calls_afterRun.
    destruct r; simpl; split; try intros _; apply NoDup_singleton.
  - rewrite items_catalog. simpl. rewrite app_nil_r.
    assert (Hkeys : NoDup (rangeMap ma).*1).
    { rewrite Hrange. apply NoDup_fst_map_to_list. }
    split.
    + rewrite <- list_fmap_compose.
      assert (Heq : autocomplete ∘ catalogItem prefix
                    = (fun k => Some (prefix +:+ k)) ∘ fst) by done.
      rewrite Heq, list_fmap_compose.
      apply NoDup_fmap_2; [|done].
      intros k1 k2 H. apply (append_inj_l prefix). congruence.
    + intros Hinv. rewrite <- list_fmap_compose.
      assert (Heq : title ∘ catalogItem prefix <$> rangeMap ma = (rangeMap ma).*1).
      { apply list_fmap_ext. intros i [kw action] Hi. simpl.
        apply (Hinv kw action).
        apply elem_of_map_to_list. rewrite <- Hrange.
        by eapply list_elem_of_lookup_2. }
      by rewrite Heq.
Qed.

Lemma Args_items_distinct_witness :
  let ma := Register ∅ DefaultMagicActions in
  let tr := trace (reply None false)
              (Args asciiTrimSpace map_to_list ma ["workflow:del"] "workflow:") tt in
  NoDup (autocomplete <$> items tr) /\ (registry_inv ma -> NoDup (title <$> items tr)).
Proof.
  apply (Args_items_distinct asciiTrimSpace map_to_list (reply None false) tt).
  reflexivity.
Defined.

(** X16.  With nothing registered every prefixed argument leads to the
    listing, which then holds no item: [Filter], [WarnEmpty] and
    [SendFeedback] are the only calls. *)
Theorem Args_empty_registry
    (TrimSpace : string -> string)
    (rangeMap : MagicActions -> list (string * MagicAction))
    {World : Type} (handler : forall c : ExtCall, World -> extRes c * World)
    (w : World) (prefix : string) (pre post : list string) (arg : string) :
  rangeMap ∅ ≡ₚ map_to_list (∅ : MagicActions) ->
  Forall (plain TrimSpace prefix) pre ->
  HasPrefix (TrimSpace arg) prefix = true ->
  let p := Args TrimSpace rangeMap ∅ (pre ++ arg :: post) prefix in
  trace handler p w
    = [ ECall (Filter (slice_from (String.length prefix) (TrimSpace arg)));
        ECall (WarnEmpty "No matching action" "Try another query?");
        ECall SendFeedback ]
  /\ outcome handler p w = Exited 0.
Proof.
  intros Hrange Hpre Harg p. subst p.
  rewrite (Args_first TrimSpace rangeMap ∅ prefix pre arg post Hpre Harg).
  rewrite lookup_empty. unfold trace, outcome.
  destruct (exec_listActions rangeMap handler ∅ prefix
              (slice_from (String.length prefix) (TrimSpace arg)) w) as [w' ->].
  rewrite map_to_list_empty in Hrange. apply Permutation_nil_r in Hrange.
  by rewrite Hrange.
Qed.

Lemma Args_empty_registry_witness :
  let p := Args asciiTrimSpace map_to_list ∅ (["a"] ++ "workflow:log" :: ["b"])
             "workflow:" in
  trace (reply None false) p tt
    = [ ECall (Filter (slice_from (String.length "workflow:")
                         (asciiTrimSpace "workflow:log")));
        ECall (WarnEmpty "No matching action" "Try another query?");
        ECall SendFeedback ]
  /\ outcome (reply None false) p tt = Exited 0.
Proof.
  apply (Args_empty_registry asciiTrimSpace map_to_list (reply None false) tt).
  - reflexivity.
  - repeat constructor.
  - reflexivity.
Defined.

(** X17.  An action registered last in a [Register] call is the one
    [Args] runs for its keyword, whatever was registered under that
    keyword before or earlier in the same call. *)
Theorem Args_runs_registered
    (TrimSpace : string -> string)
    (rangeMap : MagicActions -> list (string * MagicAction))
    {World : Type} (handler : forall c : ExtCall, World -> extRes c * World)
    (w : World) (ma : MagicActions) (actions : list MagicAction) (a : MagicAction)
    (prefix : string) (pre post : list string) (arg : string) :
  Forall (plain TrimSpace prefix) pre ->
  TrimSpace arg = prefix +:+ Keyword a ->
  let p := Args TrimSpace rangeMap (Register ma (actions ++ [a]))
             (pre ++ arg :: post) prefix in
  runs (trace handler p w) = [a] /\ outcome handler p w = Exited 0.
Proof.
  intros Hpre Harg p. subst p.
  destruct (exec_Args_keyword TrimSpace rangeMap handler w
              (Register ma (actions ++ [a])) prefix (Keyword a) a pre arg post)
    as (body & r & w' & E); [done | done | |].
  { rewrite Register_snoc. apply lookup_insert_eq. }
  unfold trace, outcome. rewrite E. simpl. by rewrite runs_afterRun.
Qed.

Lemma Args_runs_registered_witness :
  let mine := mkMagicAction "log" "Show my own log" "Showing…" (Ret None) in
  let p := Args asciiTrimSpace map_to_list
             (Register (Register ∅ DefaultMagicActions) ([resetMagic] ++ [mine]))
             ([] ++ "workflow:log" :: []) "workflow:" in
  runs (trace (reply None false) p tt) = [mine]
  /\ outcome (reply None false) p tt = Exited 0.
Proof.
  intros mine.
  apply (Args_runs_registered asciiTrimSpace map_to_list (reply None false) tt
           (Register ∅ DefaultMagicActions) [resetMagic] mine "workflow:").
  - constructor.
  - reflexivity.
Defined.

(** X18.  Once an action is unregistered its keyword no longer runs
    anything: [Args] lists the registry instead, filters by that keyword,
    and no listed item completes to it. *)
Theorem Args_lists_unregistered
    (TrimSpace : string -> string)
    (rangeMap : MagicActions -> list (string * MagicAction))
    {World : Type} (handler : forall c : ExtCall, World -> extRes c * World)
    (w : World) (ma : MagicActions) (actions : list MagicAction) (a : MagicAction)
    (prefix : string) (pre post : list string) (arg : string) :
  rangeMap (Unregister ma (actions ++ [a]))
    ≡ₚ map_to_list (Unregister ma (actions ++ [a])) ->
  Forall (plain TrimSpace prefix) pre ->
  TrimSpace arg = prefix +:+ Keyword a ->
  let p := Args TrimSpace rangeMap (Unregister ma (actions ++ [a]))
             (pre ++ arg :: post) prefix in
  runs (trace handler p w) = []
  /\ Filter (Keyword a) ∈ calls (trace handler p w)
  /\ Forall (fun it => autocomplete it ≠ Some (prefix +:+ Keyword a))
            (items (trace handler p w))
  /\ outcome handler p w = Exited 0.
Proof.
  intros Hrange Hpre Harg p. subst p.
  assert (Hgone : Unregister ma (actions ++ [a]) !! Keyword a = None).
  { rewrite Unregister_snoc. apply lookup_delete_eq. }
  destruct (exec_Args_unknown TrimSpace rangeMap handler w
              (Unregister ma (actions ++ [a])) prefix (Keyword a) pre arg post)
    as (w' & E); [done..|].
  unfold trace, outcome. rewrite E. simpl.
  rewrite calls_app, runs_app, runs_ECall, items_catalog. simpl.
  repeat split.
  - apply elem_of_app; right. apply elem_of_cons; by left.
  - rewrite app_nil_r. apply Forall_fmap, Forall_forall.
    intros [kw action] Hin Heq. simpl in Heq.
    assert (kw = Keyword a) as -> by (apply (append_inj_l prefix); congruence).
    rewrite Hrange in Hin. apply elem_of_map_to_list in Hin. congruence.
Qed.

Lemma Args_lists_unregistered_witness :
  let p := Args asciiTrimSpace map_to_list
             (Unregister (Register ∅ DefaultMagicActions) ([] ++ [resetMagic]))
             (["x"] ++ "workflow:reset" :: []) "workflow:" in
  runs (trace (reply None false) p tt) = []
  /\ Filter (Keyword resetMagic) ∈ calls (trace (reply None false) p tt)
  /\ Forall (fun it => autocomplete it ≠ Some ("workflow:" +:+ Keyword resetMagic))
            (items (trace (reply None false) p tt))
  /\ outcome (reply None false) p tt = Exited 0.
Proof.
  apply (Args_lists_unregistered asciiTrimSpace map_to_list (reply None false) tt
           (Register ∅ DefaultMagicActions) [] resetMagic "workflow:").
  - reflexivity.
  - repeat constructor.
  - reflexivity.
Defined.

(** X19.  With the default actions registered and the default prefix,
    every default action is run by its own keyword: when the first
    prefixed argument is ["workflow:"] followed by the keyword of a
    default action, that action and no other is run. *)
Theorem Args_default_actions_reachable
    (TrimSpace : string -> string)
    (rangeMap : MagicActions -> list (string * MagicAction))
    {World : Type} (handler : forall c : ExtCall, World -> extRes c * World)
    (w : World) (a : MagicAction) (pre post : list string) (arg : string) :
  a ∈ DefaultMagicActions ->
  Forall (plain TrimSpace DefaultMagicPrefix) pre ->
  TrimSpace arg = DefaultMagicPrefix +:+ Keyword a ->
  let p := Args TrimSpace rangeMap (Register ∅ DefaultMagicActions)
             (pre ++ arg :: post) DefaultMagicPrefix in
  runs (trace handler p w) = [a] /\ outcome handler p w = Exited 0.
Proof.
  intros Ha Hpre Harg p. subst p.
  destruct (exec_Args_keyword TrimSpace rangeMap handler w
              (Register ∅ DefaultMagicActions) DefaultMagicPrefix (Keyword a) a
              pre arg post)
    as (body & r & w' & E); [done | done | |].
  { apply Register_distinct_all_found_aux; [|done].
    apply (bool_decide_unpack _). vm_compute. exact I. }
  unfold trace, outcome. rewrite E. simpl. by rewrite runs_afterRun.
Qed.

Lemma Args_default_actions_reachable_witness :
  let p := Args asciiTrimSpace map_to_list (Register ∅ DefaultMagicActions)
             (["open"] ++ " workflow:deldata " :: ["workflow:log"])
             DefaultMagicPrefix in
  runs (trace (reply None false) p tt) = [clearDataMagic]
  /\ outcome (reply None false) p tt = Exited 0.
Proof.
  apply (Args_default_actions_reachable asciiTrimSpace map_to_list
           (reply None false) tt clearDataMagic).
  - apply list_elem_of_In. vm_compute. do 4 right. left. reflexivity.
  - repeat constructor.
  - reflexivity.
Defined.

(** ** The built-in actions *)

Lemma updateMagic_Run_calls_aux {World}
    (handler : forall c : ExtCall, World -> extRes c * World) w updater :
  Forall (fun c => updaterOf c = Some updater
                   \/ c = LogPrintln "No update available")
         (run handler (Run (updateMagic updater)) w).1.2.
Proof.
  simpl.
  destruct (handler (CheckForUpdate updater) w) as [[e|] w1]; simpl.
  - repeat (apply Forall_cons; split; [auto|]). apply Forall_nil_2.
  - destruct (handler (UpdateAvailable updater) w1) as [[|] w2]; simpl.
    + destruct (handler (Install updater) w2) as [r w3]; simpl.
      repeat (apply Forall_cons; split; [auto|]). apply Forall_nil_2.
    + destruct (handler (LogPrintln _) w2) as [[] w3]; simpl.
      repeat (apply Forall_cons; split; [auto|]). apply Forall_nil_2.
Qed.

(** X20.  [Run] of the update action, when [CheckForUpdate] succeeds and
    [UpdateAvailable] answers true: [Install] is called and whatever it
    returns, nil or an error, is what [Run] returns; nothing is logged. *)
Theorem updateMagic_Run_installs
    {World : Type} (handler : forall c : ExtCall, World -> extRes c * World)
    (w : World) (updater : Updater) :
  let checked := handler (CheckForUpdate updater) w in
  let asked := handler (UpdateAvailable updater) checked.2 in
  let installed := handler (Install updater) asked.2 in
  checked.1 = None ->
  asked.1 = true ->
  run handler (Run (updateMagic updater)) w
  = (installed.1,
     [CheckForUpdate updater; UpdateAvailable updater; Install updater],
     installed.2).
Proof.
  intros checked asked installed Hchecked Hasked.
  subst checked asked installed. unfold updateMagic, updateMagic_Run. simpl.
  destruct (handler (CheckForUpdate updater) w) as [r1 w1].
  simpl in *. subst r1. simpl.
  destruct (handler (UpdateAvailable updater) w1) as [b w2].
  simpl in *. subst b. unfold call. simpl.
  by destruct (handler (Install updater) w2) as [r3 w3].
Qed.

Lemma updateMagic_Run_installs_witness :
  run (reply None true) (Run (updateMagic (UpdaterRef 3))) tt
  = (None,
     [ CheckForUpdate (UpdaterRef 3); UpdateAvailable (UpdaterRef 3);
       Install (UpdaterRef 3) ],
     tt).
Proof.
  apply (updateMagic_Run_installs (reply None true) tt (UpdaterRef 3));
    reflexivity.
Defined.

(** X21.  Whatever the updater answers, [Run] of the update action
    begins with [CheckForUpdate], makes at most three calls, addresses
    no updater but its own, and apart from the updater only ever writes
    the line "No update available", which it does exactly when the check
    succeeded and no update is available. *)
Theorem updateMagic_Run_calls
    {World : Type} (handler : forall c : ExtCall, World -> extRes c * World)
    (w : World) (updater : Updater) :
  let checked := handler (CheckForUpdate updater) w in
  let asked := handler (UpdateAvailable updater) checked.2 in
  let made := (run handler (Run (updateMagic updater)) w).1.2 in
  head made = Some (CheckForUpdate updater)
  /\ length made <= 3
  /\ Forall (fun c => updaterOf c = Some updater
                      \/ c = LogPrintln "No update available") made
  /\ (LogPrintln "No update available" ∈ made
      <-> checked.1 = None /\ asked.1 = false).
Proof.
  split; [|split; [|split; [apply updateMagic_Run_calls_aux|]]]; simpl.
  - destruct (handler (CheckForUpdate updater) w) as [[e|] w1]; simpl; [done|].
    destruct (handler (UpdateAvailable updater) w1) as [[|] w2]; simpl.
    + by destruct (handler (Install updater) w2) as [r w3].
    + by destruct (handler (LogPrintln _) w2) as [[] w3].
  - destruct (handler (CheckForUpdate updater) w) as [[e|] w1]; simpl; [lia|].
    destruct (handler (UpdateAvailable updater) w1) as [[|] w2]; simpl.
    + destruct (handler (Install updater) w2) as [r w3]; simpl; lia.
    + destruct (handler (LogPrintln _) w2) as [[] w3]; simpl; lia.
  - destruct (handler (CheckForUpdate updater) w) as [[e|] w1]; simpl.
    { split; [intros H; listed_in H | intros [? _]; discriminate]. }
    destruct (handler (UpdateAvailable updater) w1) as [[|] w2]; simpl.
    + destruct (handler (Install updater) w2) as [r w3]; simpl.
      split; [intros H; listed_in H | intros [_ ?]; discriminate].
    + destruct (handler (LogPrintln _) w2) as [[] w3]; simpl.
      split; [done | intros _; listed].
Qed.

(** X22.  Among the built-in actions, the help and update actions
    included, the [Run] of an action makes a call that deletes files
    exactly when its keyword is [delcache], [deldata] or [reset]; the
    opening actions, help and update never do, whatever the outside
    world answers. *)
Theorem builtins_delete_iff_keyword
    {World : Type} (handler : forall c : ExtCall, World -> extRes c * World)
    (w : World) (URL : string) (updater : Updater) (a : MagicAction) :
  a ∈ builtins URL updater ->
  (Exists (fun c => deletes c = true) (run handler (Run a) w).1.2
   <-> Keyword a ∈ ["delcache"; "deldata"; "reset"]).
Proof.
  intros Ha. unfold builtins, DefaultMagicActions in Ha.
  assert (Hno : forall l, Forall (fun c => deletes c = false) l ->
                  ~ Exists (fun c => deletes c = true) l).
  { intros l Hl Hex. apply Exists_exists in Hex as (c & Hc & Hd).
    rewrite Forall_forall in Hl. specialize (Hl c Hc). congruence. }
  simpl in Ha. rewrite !elem_of_cons, elem_of_nil in Ha.
  destruct Ha as [->|[->|[->|[->|[->|[->|[->|[->|[]]]]]]]]]; simpl.
  1: destruct (handler OpenLog w) as [r w1].
  2: destruct (handler OpenCache w) as [r w1].
  3: destruct (handler ClearCache w) as [r w1].
  4: destruct (handler OpenData w) as [r w1].
  5: destruct (handler ClearData w) as [r w1].
  6: destruct (handler Reset w) as [r w1].
  7: destruct (handler (ExecOpen URL) w) as [r w1].
  1-7: simpl.
  1,2,4,7: split; [ intros H; exfalso; revert H; apply Hno; by repeat constructor
                  | intros H; listed_in H ].
  1-3: split; [ intros _; listed | intros _; by constructor ].
  pose proof (updateMagic_Run_calls_aux handler w updater) as Hcalls.
  split; [|intros H; listed_in H].
  intros H. exfalso. revert H. apply Hno.
  eapply Forall_impl; [exact Hcalls|].
  intros c [Hc | ->]; [by destruct c | done].
Qed.

Lemma builtins_delete_iff_keyword_witness :
  Exists (fun c => deletes c = true)
         (run (reply None false) (Run resetMagic) tt).1.2
  <-> Keyword resetMagic ∈ ["delcache"; "deldata"; "reset"].
Proof.
  apply (builtins_delete_iff_keyword (reply None false) tt
           "https://example.org" (UpdaterRef 0) resetMagic).
  apply list_elem_of_In. vm_compute. do 5 right. left. reflexivity.
Defined.

(** ** Icons *)

Lemma length_append (a b : string) :
  String.length (a +:+ b) = String.length a + String.length b.
Proof.
  induction a as [|c a IH]; [done|].
  change (S (String.length (a +:+ b)) = S (String.length a + String.length b)).
  by rewrite IH.
Qed.

Lemma append_inj_r (s a b : string) : a +:+ s = b +:+ s -> a = b.
Proof.
  revert b. induction a as [|c a IH]; intros [|c' b] H.
  - done.
  - apply (f_equal String.length) in H.
    rewrite !length_append in H. simpl in H. lia.
  - apply (f_equal String.length) in H.
    rewrite !length_append in H. simpl in H. lia.
  - change (String c (a +:+ s) = String c' (b +:+ s)) in H.
    injection H as -> H. f_equal. by apply IH.
Qed.

(** X23.  [systemIcon] gives different icons for different file names,
    always of the image-file type, and never the workflow's own icon. *)
Theorem systemIcon_distinct (f g : string) :
  f ≠ g ->
  systemIcon f ≠ systemIcon g
  /\ Type_ (systemIcon f) = IconTypeImageFile
  /\ systemIcon f ≠ IconWorkflow.
Proof.
  intros Hfg. repeat split.
  - intros H. apply Hfg. unfold systemIcon in H.
    injection H as H. apply append_inj_l in H. by apply append_inj_r in H.
  - discriminate.
Qed.

Lemma systemIcon_distinct_witness :
  systemIcon "Clock" ≠ systemIcon "Sync"
  /\ Type_ (systemIcon "Clock") = IconTypeImageFile
  /\ systemIcon "Clock" ≠ IconWorkflow.
Proof. apply (systemIcon_distinct "Clock" "Sync"). discriminate. Defined.

(** X24.  [init] sets twenty-four variables, each once and each to an
    icon of the image-file type.  Two different variables receive the
    same icon only where one name is the other in another spelling:
    [IconColor] and [IconColour], [IconFavorite] and [IconFavourite]. *)
Theorem init_icons_distinct :
  length init = 24
  /\ NoDup init.*1
  /\ Forall (fun e => Type_ e.2 = IconTypeImageFile) init
  /\ (forall n1 n2 i,
        (n1, i) ∈ init -> (n2, i) ∈ init ->
        n1 = n2
        \/ (n1, n2) ∈ [ ("IconColor", "IconColour"); ("IconColour", "IconColor");
                        ("IconFavorite", "IconFavourite");
                        ("IconFavourite", "IconFavorite") ]).
Proof.
  split; [done|]. split; [apply (bool_decide_unpack _); by vm_compute|].
  split; [apply (bool_decide_unpack _); by vm_compute|].
  assert (H : Forall (fun e1 => Forall (fun e2 =>
                e1.2 = e2.2 ->
                e1.1 = e2.1
                \/ (e1.1, e2.1)
                   ∈ [ ("IconColor", "IconColour"); ("IconColour", "IconColor");
                       ("IconFavorite", "IconFavourite");
                       ("IconFavourite", "IconFavorite") ]) init) init).
  { apply (bool_decide_unpack _). by vm_compute. }
  intros n1 n2 i H1 H2.
  rewrite Forall_forall in H. specialize (H _ H1).
  rewrite Forall_forall in H. by apply (H _ H2).
Qed.

(** ** Registry changes that leave a keyword alone *)

(** X25.  What [Args] does for a registered keyword does not change when
    actions with other keywords are registered or unregistered: the
    program is the same. *)
Theorem Args_unaffected_by_other_keywords
    (TrimSpace : string -> string)
    (rangeMap : MagicActions -> list (string * MagicAction))
    (ma : MagicActions) (actions : list MagicAction) (a : MagicAction)
    (prefix k : string) (pre post : list string) (arg : string) :
  Forall (plain TrimSpace prefix) pre ->
  TrimSpace arg = prefix +:+ k ->
  ma !! k = Some a ->
  k ∉ Keyword <$> actions ->
  Args TrimSpace rangeMap (Register ma actions) (pre ++ arg :: post) prefix
  = Args TrimSpace rangeMap ma (pre ++ arg :: post) prefix
  /\ Args TrimSpace rangeMap (Unregister ma actions) (pre ++ arg :: post) prefix
     = Args TrimSpace rangeMap ma (pre ++ arg :: post) prefix.
Proof.
  intros Hpre Harg Hk Hother.
  assert (Hp : HasPrefix (TrimSpace arg) prefix = true)
    by (rewrite Harg; apply HasPrefix_app).
  rewrite !(Args_first TrimSpace rangeMap _ prefix pre arg post Hpre Hp).
  rewrite Harg, slice_from_app, Hk.
  rewrite lookup_Register_other, lookup_Unregister, decide_False, Hk by done.
  done.
Qed.

Lemma Args_unaffected_by_other_keywords_witness :
  let ma := Register ∅ DefaultMagicActions in
  let extra := [helpMagic "https://example.org"; updateMagic (UpdaterRef 0)] in
  Args asciiTrimSpace map_to_list (Register ma extra)
       (["x"] ++ "workflow:log " :: []) "workflow:"
  = Args asciiTrimSpace map_to_list ma (["x"] ++ "workflow:log " :: []) "workflow:"
  /\ Args asciiTrimSpace map_to_list (Unregister ma extra)
          (["x"] ++ "workflow:log " :: []) "workflow:"
     = Args asciiTrimSpace map_to_list ma (["x"] ++ "workflow:log " :: []) "workflow:".
Proof.
  intros ma extra.
  apply (Args_unaffected_by_other_keywords asciiTrimSpace map_to_list ma extra
           openLogMagic "workflow:" "log").
  - repeat constructor.
  - reflexivity.
  - vm_compute. reflexivity.
  - intros H. apply list_elem_of_In in H. vm_compute in H. intuition discriminate.
Defined.
